(** * A model of the chunk-loading runtime of [prettywebsite.js]

    The source file is a bootstrap closure holding four tables
    ([modules], [installedModules], [installedChunks], [chunkStatus]),
    a queue ([chunkQueue]) and four functions: [__webpack_require__],
    [loadChunk], [checkDeferredModules] and the replacement of
    [jsonpArray.push].  This development embeds those functions as
    state-passing Rocq functions and proves properties of them.

    Conventions of the embedding.
    - Property keys.  Module and chunk ids are the numeric ids a build
      emits (the source uses [77]) or [undefined] (what [chunkData[2]]
      is when a delivery names no entry module); the tables are finite
      maps over these keys.  A name that the tables inherit from
      [Object.prototype] is not a key of the maps: a request for such a
      name is modelled apart, by [require_any].
    - Objects live in a heap indexed by allocation order, so "the same
      reference" is equality of addresses.
    - Module factories are not part of the source file: they arrive in
      deliveries.  A factory is a program of a small command language
      (write an export, replace [module.exports], require a module,
      throw), which is what a factory can do to the runtime through its
      three arguments.  A factory that reaches into the tables through
      the aliases of lines 88-90 ([__webpack_require__.c], [.m], [.e])
      is outside the model.
    - Functions that may call factories take a [fuel] argument bounding
      the nesting depth of requires (and the number of loop iterations);
      [OutOfFuel] is the absence of a result. *)

From Stdlib Require Import ZArith NArith String DecimalString DecimalPos DecimalN Lia.
From stdpp Require Import gmap strings list fin_maps.

(** ** Data model *)

(** A property key used as a module id or a chunk id. *)
Inductive key := KNum (n : N) | KUndefined.

Global Instance key_eq_dec : EqDecision key.
Proof. solve_decision. Defined.

Definition key_to_option (k : key) : option N :=
  match k with KNum n => Some n | KUndefined => None end.

Definition key_of_option (o : option N) : key :=
  match o with Some n => KNum n | None => KUndefined end.

Global Instance key_countable : Countable key.
Proof.
  refine (inj_countable' key_to_option key_of_option _).
  intros k. destruct k; reflexivity.
Defined.

(** ['' + k]: how JavaScript prints a key inside a string concatenation. *)
Definition key_to_string (k : key) : string :=
  match k with
  | KNum n => NilZero.string_of_uint (N.to_uint n)
  | KUndefined => "undefined"
  end.

(** JavaScript values that the runtime stores or returns. *)
Inductive val :=
| VUndef
| VNum (z : Z)
| VStr (s : string)
| VObj (a : nat).

Global Instance val_eq_dec : EqDecision val.
Proof. solve_decision. Defined.

(** What a call can throw: the [TypeError] of calling [undefined.call],
    or a value thrown by a factory. *)
Inductive exn := TypeError | Thrown (v : val).

(** The module record [{ i, l, exports }] of line 15. *)
Record module_record := ModuleRecord {
  mod_i : key;
  mod_l : bool;
  mod_exports : val;
}.

(** The factory language. *)
Inductive expr :=
| ELit (v : val)          (* a literal *)
| ERequire (moduleId : key)  (* __webpack_require__(moduleId) *)
| EObject.                (* {} *)

Inductive stmt :=
| SExport (k : string) (e : expr)   (* exports.k = e *)
| SModuleExports (e : expr)         (* module.exports = e *)
| SExpr (e : expr)                  (* e; *)
| SThrow (v : val).                 (* throw v *)

Definition factory := list stmt.

(** A value of [installedChunks] or [chunkStatus]: [undefined], the
    sentinel [0], or the array [[resolve, reject, promise]] of a pending
    load, identified by the promise its two functions settle. *)
Inductive slot := Undefined | Zero | Waiter (p : nat).

Global Instance slot_eq_dec : EqDecision slot.
Proof. solve_decision. Defined.

(** Truthiness of a slot, as [if (chunkStatus[chunkId])] tests it. *)
Definition truthy (s : slot) : bool :=
  match s with Waiter _ => true | _ => false end.

(** [!== 0]. *)
Definition not_zero (s : slot) : bool :=
  match s with Zero => false | _ => true end.

(** A promise; a rejection reason is the error object of a script,
    named by the index of that script. *)
Inductive promise_state := Pending | Fulfilled | Rejected (error : nat).

Global Instance promise_state_eq_dec : EqDecision promise_state.
Proof. solve_decision. Defined.

(** The [Error] object created on line 43 and filled in by the handler. *)
Record error_obj := ErrorObj {
  err_message : string;
  err_name : string;
  err_type : val;
  err_request : val;
}.

(** [new Error()]. *)
Definition new_Error : error_obj :=
  {| err_message := ""; err_name := "Error";
     err_type := VUndef; err_request := VUndef |}.

(** A script element created by [loadChunk], together with what the
    closure of its handler captures: [chunkId], [error] and [timeout]. *)
Record script := Script {
  sc_charset : string;
  sc_timeout : N;
  sc_src : string;
  sc_chunkId : key;
  sc_error : error_obj;
  sc_timer : bool;        (* the timer of line 61 is still armed *)
}.

(** The event passed to [script.onerror] / [script.onload]. *)
Record event := Event {
  ev_type : string;
  ev_target : option nat;   (* index of the target script *)
}.

(** The triple appended to [jsonpArray]. *)
Record chunk_data := ChunkData {
  chunkIds : list key;
  moreModules : list (key * factory);   (* own properties, in for-in order *)
  executeModules : key;
}.

(** The closure state of the bootstrap function.  [factory_calls] and
    [entry_runs] are ghost logs: the ids whose factory was invoked
    (line 21) and the ids requested by [checkDeferredModules] (line 82),
    in order. *)
Record state := State {
  modules : gmap key factory;
  installedModules : gmap key module_record;
  installedChunks : gmap key slot;
  chunkStatus : gmap key slot;
  chunkQueue : list (list key);
  require_s : key;                       (* __webpack_require__.s *)
  heap : list (gmap string val);
  promises : list promise_state;
  scripts : list script;
  jsonpArray : list chunk_data;
  factory_calls : list key;
  entry_runs : list key;
}.

(** Field updates: [set_x f st] is [st] with field [x] replaced by [f x]. *)

Definition set_modules (f : gmap key factory -> gmap key factory) (st : state) : state :=
  {| modules := f (modules st); installedModules := installedModules st;
     installedChunks := installedChunks st; chunkStatus := chunkStatus st;
     chunkQueue := chunkQueue st; require_s := require_s st; heap := heap st;
     promises := promises st; scripts := scripts st;
     jsonpArray := jsonpArray st; factory_calls := factory_calls st;
     entry_runs := entry_runs st |}.

Definition set_installedModules (f : gmap key module_record -> gmap key module_record) (st : state) : state :=
  {| modules := modules st; installedModules := f (installedModules st);
     installedChunks := installedChunks st; chunkStatus := chunkStatus st;
     chunkQueue := chunkQueue st; require_s := require_s st; heap := heap st;
     promises := promises st; scripts := scripts st;
     jsonpArray := jsonpArray st; factory_calls := factory_calls st;
     entry_runs := entry_runs st |}.

Definition set_installedChunks (f : gmap key slot -> gmap key slot) (st : state) : state :=
  {| modules := modules st; installedModules := installedModules st;
     installedChunks := f (installedChunks st);
     chunkStatus := chunkStatus st; chunkQueue := chunkQueue st;
     require_s := require_s st; heap := heap st; promises := promises st;
     scripts := scripts st; jsonpArray := jsonpArray st;
     factory_calls := factory_calls st; entry_runs := entry_runs st |}.

Definition set_chunkStatus (f : gmap key slot -> gmap key slot) (st : state) : state :=
  {| modules := modules st; installedModules := installedModules st;
     installedChunks := installedChunks st;
     chunkStatus := f (chunkStatus st); chunkQueue := chunkQueue st;
     require_s := require_s st; heap := heap st; promises := promises st;
     scripts := scripts st; jsonpArray := jsonpArray st;
     factory_calls := factory_calls st; entry_runs := entry_runs st |}.

Definition set_chunkQueue (f : list (list key) -> list (list key)) (st : state) : state :=
  {| modules := modules st; installedModules := installedModules st;
     installedChunks := installedChunks st; chunkStatus := chunkStatus st;
     chunkQueue := f (chunkQueue st); require_s := require_s st;
     heap := heap st; promises := promises st; scripts := scripts st;
     jsonpArray := jsonpArray st; factory_calls := factory_calls st;
     entry_runs := entry_runs st |}.

Definition set_require_s (f : key -> key) (st : state) : state :=
  {| modules := modules st; installedModules := installedModules st;
     installedChunks := installedChunks st; chunkStatus := chunkStatus st;
     chunkQueue := chunkQueue st; require_s := f (require_s st);
     heap := heap st; promises := promises st; scripts := scripts st;
     jsonpArray := jsonpArray st; factory_calls := factory_calls st;
     entry_runs := entry_runs st |}.

Definition set_heap (f : list (gmap string val) -> list (gmap string val)) (st : state) : state :=
  {| modules := modules st; installedModules := installedModules st;
     installedChunks := installedChunks st; chunkStatus := chunkStatus st;
     chunkQueue := chunkQueue st; require_s := require_s st;
     heap := f (heap st); promises := promises st; scripts := scripts st;
     jsonpArray := jsonpArray st; factory_calls := factory_calls st;
     entry_runs := entry_runs st |}.

Definition set_promises (f : list promise_state -> list promise_state) (st : state) : state :=
  {| modules := modules st; installedModules := installedModules st;
     installedChunks := installedChunks st; chunkStatus := chunkStatus st;
     chunkQueue := chunkQueue st; require_s := require_s st; heap := heap st;
     promises := f (promises st); scripts := scripts st;
     jsonpArray := jsonpArray st; factory_calls := factory_calls st;
     entry_runs := entry_runs st |}.

Definition set_scripts (f : list script -> list script) (st : state) : state :=
  {| modules := modules st; installedModules := installedModules st;
     installedChunks := installedChunks st; chunkStatus := chunkStatus st;
     chunkQueue := chunkQueue st; require_s := require_s st; heap := heap st;
     promises := promises st; scripts := f (scripts st);
     jsonpArray := jsonpArray st; factory_calls := factory_calls st;
     entry_runs := entry_runs st |}.

Definition set_jsonpArray (f : list chunk_data -> list chunk_data) (st : state) : state :=
  {| modules := modules st; installedModules := installedModules st;
     installedChunks := installedChunks st; chunkStatus := chunkStatus st;
     chunkQueue := chunkQueue st; require_s := require_s st; heap := heap st;
     promises := promises st; scripts := scripts st;
     jsonpArray := f (jsonpArray st); factory_calls := factory_calls st;
     entry_runs := entry_runs st |}.

Definition set_factory_calls (f : list key -> list key) (st : state) : state :=
  {| modules := modules st; installedModules := installedModules st;
     installedChunks := installedChunks st; chunkStatus := chunkStatus st;
     chunkQueue := chunkQueue st; require_s := require_s st; heap := heap st;
     promises := promises st; scripts := scripts st;
     jsonpArray := jsonpArray st; factory_calls := f (factory_calls st);
     entry_runs := entry_runs st |}.

Definition set_entry_runs (f : list key -> list key) (st : state) : state :=
  {| modules := modules st; installedModules := installedModules st;
     installedChunks := installedChunks st; chunkStatus := chunkStatus st;
     chunkQueue := chunkQueue st; require_s := require_s st; heap := heap st;
     promises := promises st; scripts := scripts st;
     jsonpArray := jsonpArray st; factory_calls := factory_calls st;
     entry_runs := f (entry_runs st) |}.

(** The result of a call: a value and the state after it, an exception
    and the state at the throw (side effects made before a throw stay),
    or no result within the fuel given. *)
Inductive outcome (A : Type) :=
| Ret (a : A) (st : state)
| Throw (e : exn) (st : state)
| OutOfFuel.

Arguments Ret {A} a st.
Arguments Throw {A} e st.
Arguments OutOfFuel {A}.

Definition bind {A B : Type} (c : outcome A) (k : A -> state -> outcome B) : outcome B :=
  match c with
  | Ret a st => k a st
  | Throw e st => Throw e st
  | OutOfFuel => OutOfFuel
  end.

Notation "'let*' ( x , st ) := c 'in' k" := (bind c (fun x st => k))
  (at level 10, x name, st name, c at level 100, k at level 200).

(** The state the closure starts in (lines 7-10, and [modules = []]). *)
Definition init : state :=
  {| modules := ∅; installedModules := ∅;
     installedChunks := {[ KNum 77 := Zero ]};
     chunkStatus := {[ KNum 77 := Zero ]};
     chunkQueue := []; require_s := KUndefined; heap := [];
     promises := []; scripts := []; jsonpArray := [];
     factory_calls := []; entry_runs := [] |}.

(** [__webpack_require__.p] (line 91). *)
Definition publicPath : string := "https://cdn2.edulastic.com/JS/dist/".

(** ** The module registry and the execution engine *)

(** [o.k = v] on the heap; a write through a primitive is dropped. *)
Definition write_prop (target : val) (k : string) (v : val) (st : state) : state :=
  match target with
  | VObj a => set_heap (alter (<[k := v]>) a) st
  | _ => st
  end.

Definition set_exports (v : val) (m : module_record) : module_record :=
  {| mod_i := mod_i m; mod_l := mod_l m; mod_exports := v |}.

Definition set_loaded (m : module_record) : module_record :=
  {| mod_i := mod_i m; mod_l := true; mod_exports := mod_exports m |}.

Section Factory.
(** The [__webpack_require__] a factory receives as its third argument. *)
Variable require : key -> state -> outcome val.

Definition eval_expr (e : expr) (st : state) : outcome val :=
  match e with
  | ELit v => Ret v st
  | ERequire moduleId => require moduleId st
  | EObject => Ret (VObj (length (heap st))) (set_heap (fun h => h ++ [∅]) st)
  end.

(** One statement of the factory of module [self], called with
    [exportsArg] as its [exports] argument.  [module] is the record
    cached under [self]: line 15 stores it before the call, and no
    line of the file removes or replaces a cached record. *)
Definition exec_stmt (self : key) (exportsArg : val) (s : stmt) (st : state)
  : outcome unit :=
  match s with
  | SExport k e =>
      let* (v, st1) := eval_expr e st in
      Ret tt (write_prop exportsArg k v st1)
  | SModuleExports e =>
      let* (v, st1) := eval_expr e st in
      Ret tt (set_installedModules (alter (set_exports v) self) st1)
  | SExpr e =>
      let* (_v, st1) := eval_expr e st in Ret tt st1
  | SThrow v => Throw (Thrown v) st
  end.

Fixpoint exec_stmts (self : key) (exportsArg : val) (body : factory) (st : state)
  : outcome unit :=
  match body with
  | [] => Ret tt st
  | s :: rest =>
      let* (_u, st1) := exec_stmt self exportsArg s st in
      exec_stmts self exportsArg rest st1
  end.
End Factory.

(** Lines 12-25. *)
Fixpoint __webpack_require__ (fuel : nat) (moduleId : key) (st : state) : outcome val :=
  match fuel with
  | O => OutOfFuel
  | S fuel' =>
      match installedModules st !! moduleId with
      | Some m => Ret (mod_exports m) st
      | None =>
          let a := length (heap st) in
          let module :=
            {| mod_i := moduleId; mod_l := false; mod_exports := VObj a |} in
          let st1 := set_heap (fun h => h ++ [∅]) st in
          let st2 := set_installedModules (<[moduleId := module]>) st1 in
          match modules st2 !! moduleId with
          | None => Throw TypeError st2
          | Some f =>
              let st3 := set_factory_calls (fun c => c ++ [moduleId]) st2 in
              let* (_u, st4) :=
                exec_stmts (__webpack_require__ fuel') moduleId (VObj a) f st3 in
              let st5 := set_installedModules (alter set_loaded moduleId) st4 in
              Ret (default VUndef (mod_exports <$> installedModules st5 !! moduleId)) st5
          end
      end
  end.

(** ** The unit loader *)

Definition slot_of (table : gmap key slot) (k : key) : slot :=
  default Undefined (table !! k).

(** Settling a promise; a settled promise ignores later calls of its
    [resolve] and [reject]. *)
Definition settle (p : nat) (o : promise_state) (st : state) : state :=
  match promises st !! p with
  | Some Pending => set_promises (<[p := o]>) st
  | _ => st
  end.

Definition resolve (p : nat) : state -> state := settle p Fulfilled.
Definition reject (p : nat) (error : nat) : state -> state := settle p (Rejected error).

(** An element of the array handed to [Promise.all]: a promise, or a
    value that is not a promise (the array of a slot). *)
Inductive awaited := APromise (p : nat) | AValue (s : slot).

(** What [loadChunk] returns: [Promise.all(promises)].  Its state is a
    function of the states of the promises it waits for; the order of
    microtasks is not modelled. *)
Definition future := list awaited.

Definition awaited_state (st : state) (a : awaited) : promise_state :=
  match a with
  | APromise p => default Pending (promises st !! p)
  | AValue _ => Fulfilled
  end.

Fixpoint future_state (st : state) (f : future) : promise_state :=
  match f with
  | [] => Fulfilled
  | a :: rest =>
      match awaited_state st a with
      | Rejected e => Rejected e
      | Fulfilled => future_state st rest
      | Pending =>
          match future_state st rest with
          | Rejected e => Rejected e
          | _ => Pending
          end
      end
  end.

Definition newline : string := String (Ascii.ascii_of_nat 10) EmptyString.

(** ['' + v] for the values [request] can take. *)
Definition val_to_string (v : val) : string :=
  match v with
  | VUndef => "undefined"
  | VNum z => NilZero.string_of_int (Z.to_int z)
  | VStr s => s
  | VObj _ => "[object Object]"
  end.

(** Line 41: the locator of a unit. *)
Definition locator (chunkId : key) : string :=
  publicPath +:+ key_to_string chunkId +:+ ".chunk.js".

(** Lines 38-43 and 61: the script element a fetch of [chunkId] creates,
    with a fresh error object and its timer armed. *)
Definition fresh_script (chunkId : key) : script :=
  {| sc_charset := "utf-8"; sc_timeout := 120000;
     sc_src := locator chunkId;
     sc_chunkId := chunkId; sc_error := new_Error; sc_timer := true |}.

(** Lines 27-69.  The handler and the timer of lines 44-63 are
    [onScriptComplete] and [timeout_fires] below; the script record
    keeps what their closures capture. *)
Definition loadChunk (chunkId : key) (st : state) : future * state :=
  let s := slot_of (chunkStatus st) chunkId in
  if truthy s then
    ([AValue s], st)
  else if not_zero s then
    let promise := length (promises st) in
    let st1 := set_promises (fun ps => ps ++ [Pending]) st in
    let st2 := set_chunkStatus (<[chunkId := Waiter promise]>) st1 in
    let script := fresh_script chunkId in
    ([APromise promise], set_scripts (fun h => h ++ [script]) st2)
  else
    ([], st).

Definition set_timer (b : bool) (sc : script) : script :=
  {| sc_charset := sc_charset sc; sc_timeout := sc_timeout sc;
     sc_src := sc_src sc; sc_chunkId := sc_chunkId sc;
     sc_error := sc_error sc; sc_timer := b |}.

Definition set_error (e : error_obj) (sc : script) : script :=
  {| sc_charset := sc_charset sc; sc_timeout := sc_timeout sc;
     sc_src := sc_src sc; sc_chunkId := sc_chunkId sc;
     sc_error := e; sc_timer := sc_timer sc |}.

Definition clearTimeout (k : nat) : state -> state :=
  set_scripts (alter (set_timer false) k).

(** [event.target && event.target.src]. *)
Definition event_request (ev : event) (st : state) : val :=
  match ev_target ev with
  | None => VUndef
  | Some t =>
      match scripts st !! t with
      | Some target => VStr (sc_src target)
      | None => VUndef
      end
  end.

(** [event.type === 'load' ? 'missing' : event.type]. *)
Definition event_class (ev : event) : string :=
  if String.eqb (ev_type ev) "load" then "missing" else ev_type ev.

(** Lines 51-55: the fields the handler writes into [error] for an
    event of class [type] whose target has locator [request].  (The
    message literal of lines 51-52 is broken across two lines in the
    file; the break is read as the newline character.) *)
Definition chunk_load_error (chunkId : key) (type : string) (request : val) : error_obj :=
  {| err_message :=
       "Loading chunk " +:+ key_to_string chunkId +:+ " failed." +:+
       newline +:+ "(" +:+ type +:+ ": " +:+ val_to_string request +:+ ")";
     err_name := "ChunkLoadError";
     err_type := VStr type;
     err_request := request |}.

(** Lines 44-60: the handler installed on script number [k]. *)
Definition onScriptComplete (k : nat) (ev : event) (st : state) : state :=
  match scripts st !! k with
  | None => st
  | Some sc =>
      let st1 := clearTimeout k st in
      let chunkId := sc_chunkId sc in
      let chunk := slot_of (chunkStatus st1) chunkId in
      if not_zero chunk then
        let st2 :=
          match chunk with
          | Waiter p =>
              let type := event_class ev in
              let request := event_request ev st1 in
              let error := chunk_load_error chunkId type request in
              reject p k (set_scripts (alter (set_error error) k) st1)
          | _ => st1
          end in
        set_chunkStatus (<[chunkId := Undefined]>) st2
      else st1
  end.

(** The environment raising [load] or [error] on script [k]. *)
Definition script_event (k : nat) (type : string) : state -> state :=
  onScriptComplete k {| ev_type := type; ev_target := Some k |}.

(** Lines 61-63: the timer of script [k] expires, if still armed. *)
Definition timeout_fires (k : nat) (st : state) : state :=
  match scripts st !! k with
  | Some sc =>
      if sc_timer sc
      then onScriptComplete k {| ev_type := "timeout"; ev_target := Some k |} st
      else st
  | None => st
  end.

(** ** The deferred queue *)

(** Lines 75-79. *)
Fixpoint all_installed (table : gmap key slot) (deps : list key) (fulfilled : bool) : bool :=
  match deps with
  | [] => fulfilled
  | depId :: rest =>
      all_installed table rest
        (if not_zero (slot_of table depId) then false else fulfilled)
  end.

Definition fulfilled (table : gmap key slot) (deferredModule : list key) : bool :=
  all_installed table (drop 1 deferredModule) true.

(** [deferredModule[0]]. *)
Definition entry_of (deferredModule : list key) : key :=
  default KUndefined (head deferredModule).

(** Lines 73-84, from index [i] with [result] as it stands.  A removed
    entry leaves the index where it is ([i--] undone by [i++]). *)
Fixpoint checkDeferredModules_from (fuel : nat) (i : nat) (result : val) (st : state)
  : outcome val :=
  match fuel with
  | O => OutOfFuel
  | S fuel' =>
      match chunkQueue st !! i with
      | None => Ret result st
      | Some deferredModule =>
          if fulfilled (installedChunks st) deferredModule then
            let st1 := set_chunkQueue (delete i) st in
            let st2 := set_require_s (fun _ => entry_of deferredModule) st1 in
            let st3 := set_entry_runs (fun r => r ++ [entry_of deferredModule]) st2 in
            let* (v, st4) := __webpack_require__ fuel' (entry_of deferredModule) st3 in
            checkDeferredModules_from fuel' i v st4
          else
            checkDeferredModules_from fuel' (S i) result st
      end
  end.

(** Lines 71-86. *)
Definition checkDeferredModules (fuel : nat) (st : state) : outcome val :=
  checkDeferredModules_from fuel 0 VUndef st.

(** Lines 115-117: [while (chunkQueue.length) checkDeferredModules()]. *)
Fixpoint drain (fuel : nat) (st : state) : outcome unit :=
  match fuel with
  | O => OutOfFuel
  | S fuel' =>
      match chunkQueue st with
      | [] => Ret tt st
      | _ :: _ =>
          let* (_v, st1) := checkDeferredModules fuel' st in
          drain fuel' st1
      end
  end.

(** ** The delivery callback *)

(** Lines 101-105. *)
Definition mark_chunk (st : state) (chunkId : key) : state :=
  let st1 :=
    match installedChunks st !! chunkId with
    | Some (Waiter p) => resolve p st
    | _ => st
    end in
  set_installedChunks (<[chunkId := Zero]>) st1.

(** Line 110. *)
Definition add_module (st : state) (entry : key * factory) : state :=
  set_modules (<[entry.1 := entry.2]>) st.

(** Lines 95-120: the function installed as [jsonpArray.push]. *)
Definition jsonpArray_push (fuel : nat) (chunkData : chunk_data) (st : state)
  : outcome val :=
  let st1 := foldl mark_chunk st (chunkIds chunkData) in
  let st2 := foldl add_module st1 (moreModules chunkData) in
  let st3 := set_jsonpArray (fun a => a ++ [chunkData]) st2 in
  let* (_u, st4) := drain fuel st3 in
  __webpack_require__ fuel (executeModules chunkData) st4.

(** ** Vocabulary of the statements *)

(** How often the factory of [moduleId] was invoked so far. *)
Definition invocations (moduleId : key) (st : state) : nat :=
  length (filter (fun k => k = moduleId) (factory_calls st)).

Definition outcome_state {A : Type} (o : outcome A) : option state :=
  match o with
  | Ret _ st => Some st
  | Throw _ st => Some st
  | OutOfFuel => None
  end.

(** What running factories can change: the heap, the cache and the log
    of invocations.  Cached records stay cached and keep their [l] flag;
    the factories newly invoked belong to modules that were not cached,
    each at most once, and are cached afterwards. *)
Record run_rel (st st' : state) : Prop := RunRel {
  rr_modules : modules st' = modules st;
  rr_installedChunks : installedChunks st' = installedChunks st;
  rr_chunkStatus : chunkStatus st' = chunkStatus st;
  rr_chunkQueue : chunkQueue st' = chunkQueue st;
  rr_require_s : require_s st' = require_s st;
  rr_promises : promises st' = promises st;
  rr_scripts : scripts st' = scripts st;
  rr_jsonpArray : jsonpArray st' = jsonpArray st;
  rr_entry_runs : entry_runs st' = entry_runs st;
  rr_cache : forall id m, installedModules st !! id = Some m ->
     exists m', installedModules st' !! id = Some m' /\ mod_l m' = mod_l m;
  rr_calls : exists new, factory_calls st' = factory_calls st ++ new /\ NoDup new /\
     forall id, id ∈ new ->
       installedModules st !! id = None /\ is_Some (installedModules st' !! id);
}.

(** The state in which the factory of a module not yet cached starts:
    the fresh exports object allocated, the record cached with
    [l = false] (lines 15-19), the invocation logged. *)
Definition fresh_record (moduleId : key) (st : state) : module_record :=
  {| mod_i := moduleId; mod_l := false; mod_exports := VObj (length (heap st)) |}.

Definition cache_fresh (moduleId : key) (st : state) : state :=
  set_installedModules (<[moduleId := fresh_record moduleId st]>)
    (set_heap (fun h => h ++ [∅]) st).

Definition enter_factory (moduleId : key) (st : state) : state :=
  set_factory_calls (fun c => c ++ [moduleId]) (cache_fresh moduleId st).

(** The number of modules that have a factory and no cached record:
    the requests that can still run a factory. *)
Definition uncached (st : state) : nat :=
  size (dom (modules st) ∖ dom (installedModules st)).

(** The state [loadChunk] leaves when it starts a fetch (lines 33-65). *)
Definition fresh_load (chunkId : key) (st : state) : state :=
  snd (loadChunk chunkId st).

(** A unit is complete when [installedChunks] holds [0] for it. *)
Definition complete (table : gmap key slot) (chunkId : key) : Prop :=
  table !! chunkId = Some Zero.

(** A deferred entry [[moduleId, dep1, ..., depn]] is satisfied when
    all its required units are complete. *)
Definition satisfied (table : gmap key slot) (deferredModule : list key) : Prop :=
  Forall (complete table) (drop 1 deferredModule).

Global Instance complete_dec table chunkId : Decision (complete table chunkId).
Proof. unfold complete. apply _. Defined.

Global Instance satisfied_dec table deferredModule :
  Decision (satisfied table deferredModule).
Proof. unfold satisfied. apply _. Defined.

(** What one scan of the queue leaves, given the queue [pre ++ rest]
    with the scan standing at [rest]: the entries of [rest] that are not
    satisfied stay, in order; the entry modules of the satisfied ones
    are requested, once each and in order; and if a request throws, the
    scan stops there with the entries behind it untouched. *)
Definition scan_post (table : gmap key slot) (runs : list key)
    (pre rest : list (list key)) (o : outcome val) : Prop :=
  match o with
  | Ret _ st' =>
      chunkQueue st' = pre ++ filter (fun e => ~ satisfied table e) rest /\
      entry_runs st' = runs ++ map entry_of (filter (satisfied table) rest) /\
      installedChunks st' = table
  | Throw _ st' =>
      exists done e0 rest',
        rest = done ++ e0 :: rest' /\ satisfied table e0 /\
        chunkQueue st' = pre ++ filter (fun e => ~ satisfied table e) done ++ rest' /\
        entry_runs st' = runs ++ map entry_of (filter (satisfied table) done) ++ [entry_of e0] /\
        installedChunks st' = table
  | OutOfFuel => False
  end.

(** The state of a delivery before the queue is drained (lines 100-114). *)
Definition delivered (chunkData : chunk_data) (st : state) : state :=
  set_jsonpArray (fun a => a ++ [chunkData])
    (foldl add_module (foldl mark_chunk st (chunkIds chunkData))
       (moreModules chunkData)).

(** The calls that reach the closure after start-up (a call of
    [loadChunk], an event or the timer of a script, a delivery, a
    request by code that holds [__webpack_require__]), and the states
    they lead to from the initial state. *)
Inductive op :=
| OpLoad (chunkId : key)                       (* loadChunk(chunkId) *)
| OpEvent (k : nat) (type : string)            (* an event on script k *)
| OpTimeout (k : nat)                          (* the timer of script k *)
| OpPush (fuel : nat) (chunkData : chunk_data) (* jsonpArray.push(chunkData) *)
| OpRequire (fuel : nat) (moduleId : key).     (* __webpack_require__(moduleId) *)

Definition apply_op (o : op) (st : state) : option state :=
  match o with
  | OpLoad chunkId => Some (snd (loadChunk chunkId st))
  | OpEvent k type => Some (script_event k type st)
  | OpTimeout k => Some (timeout_fires k st)
  | OpPush fuel chunkData => outcome_state (jsonpArray_push fuel chunkData st)
  | OpRequire fuel moduleId => outcome_state (__webpack_require__ fuel moduleId st)
  end.

Inductive reachable : state -> Prop :=
| reachable_init : reachable init
| reachable_step st o st' :
    reachable st -> apply_op o st = Some st' -> reachable st'.

(** What holds of the queue and of [installedChunks] in every state the
    file can reach: nothing is ever queued, and [installedChunks] holds
    nothing but [0]. *)
Definition queue_unused (st : state) : Prop :=
  chunkQueue st = [] /\
  forall chunkId s, installedChunks st !! chunkId = Some s -> s = Zero.

(** What holds of the loader's tables in every reachable state: the
    promise of a pending slot is pending, two slots never share a
    promise, and every script carries the locator of its unit. *)
Definition loader_inv (st : state) : Prop :=
  (forall c p, chunkStatus st !! c = Some (Waiter p) ->
     promises st !! p = Some Pending) /\
  (forall c c' p, chunkStatus st !! c = Some (Waiter p) ->
     chunkStatus st !! c' = Some (Waiter p) -> c = c') /\
  (forall k sc, scripts st !! k = Some sc -> sc_src sc = locator (sc_chunkId sc)).

(** What a scan of the queue, the loop that repeats it and a delivery
    leave alone once the delivery has prepared its state: the tables of
    factories and of units, the loader's promises and scripts, and the
    underlying array; cached records stay cached. *)
Record scan_rel (st st' : state) : Prop := ScanRel {
  sr_modules : modules st' = modules st;
  sr_installedChunks : installedChunks st' = installedChunks st;
  sr_chunkStatus : chunkStatus st' = chunkStatus st;
  sr_promises : promises st' = promises st;
  sr_scripts : scripts st' = scripts st;
  sr_jsonpArray : jsonpArray st' = jsonpArray st;
  sr_cache : forall id, is_Some (installedModules st !! id) ->
     is_Some (installedModules st' !! id);
}.

(** Every pending slot has a script of its unit whose timer is armed. *)
Definition timers_armed (st : state) : Prop :=
  forall c p, chunkStatus st !! c = Some (Waiter p) ->
    exists k sc, scripts st !! k = Some sc /\ sc_chunkId sc = c /\ sc_timer sc = true.

(** Unit 77, the main unit, is the one unit [chunkStatus] holds [0]
    for, and no script belongs to it. *)
Definition main_only (st : state) : Prop :=
  chunkStatus st !! KNum 77 = Some Zero /\
  (forall c, chunkStatus st !! c = Some Zero -> c = KNum 77) /\
  (forall k sc, scripts st !! k = Some sc -> sc_chunkId sc <> KNum 77).

(** No factory was invoked twice, and every module whose factory was
    invoked has a cached record. *)
Definition calls_once (st : state) : Prop :=
  NoDup (factory_calls st) /\
  forall id, id ∈ factory_calls st -> is_Some (installedModules st !! id).

(** The members a plain object such as [installedModules] inherits from
    [Object.prototype].  Read with one of these names, the object
    answers with the inherited member, which is a function (or, for
    [__proto__], the prototype itself) and so truthy. *)
Inductive object_member :=
| OP_constructor
| OP_hasOwnProperty
| OP_isPrototypeOf
| OP_propertyIsEnumerable
| OP_toLocaleString
| OP_toString
| OP_valueOf
| OP___proto__
| OP___defineGetter__
| OP___defineSetter__
| OP___lookupGetter__
| OP___lookupSetter__.

Definition member_name (m : object_member) : string :=
  match m with
  | OP_constructor => "constructor"
  | OP_hasOwnProperty => "hasOwnProperty"
  | OP_isPrototypeOf => "isPrototypeOf"
  | OP_propertyIsEnumerable => "propertyIsEnumerable"
  | OP_toLocaleString => "toLocaleString"
  | OP_toString => "toString"
  | OP_valueOf => "valueOf"
  | OP___proto__ => "__proto__"
  | OP___defineGetter__ => "__defineGetter__"
  | OP___defineSetter__ => "__defineSetter__"
  | OP___lookupGetter__ => "__lookupGetter__"
  | OP___lookupSetter__ => "__lookupSetter__"
  end.



(** One scan in the words of the specification (section 4.4): go
    through the entries in order; an entry whose required units are
    all complete is removed from the queue and its entry module is
    executed by the execution engine; any other entry stays.  [kept]
    are the entries passed and kept so far, [rest] those still to
    look at. *)
Fixpoint scan_entries (fuel : nat) (kept rest : list (list key)) (result : val)
    (st : state) : outcome val :=
  match rest with
  | [] => Ret result st
  | e :: rest' =>
      if decide (satisfied (installedChunks st) e) then
        let st1 :=
          set_entry_runs (fun r => r ++ [entry_of e])
            (set_require_s (fun _ => entry_of e)
               (set_chunkQueue (fun _ => kept ++ rest') st)) in
        let* (v, st2) := __webpack_require__ fuel (entry_of e) st1 in
        scan_entries fuel kept rest' v st2
      else scan_entries fuel (kept ++ [e]) rest' result st
  end.

(** An event on script [k] is a no-op in [st]: it clears the timer of
    the script and nothing else; no promise, no slot as it reads, no
    error object and no table of units or modules changes. *)
Definition handler_is_noop (k : nat) (ev : event) (st : state) : Prop :=
  let st' := onScriptComplete k ev st in
  promises st' = promises st /\
  (forall c, slot_of (chunkStatus st') c = slot_of (chunkStatus st) c) /\
  scripts st' = alter (set_timer false) k (scripts st) /\
  installedChunks st' = installedChunks st /\
  modules st' = modules st /\
  installedModules st' = installedModules st.

(** ** Concrete scenarios *)

Definition state_after {A : Type} (o : outcome A) : state :=
  match o with
  | Ret _ st => st
  | Throw _ st => st
  | OutOfFuel => init
  end.

(** A module whose factory does [exports.v = 1]. *)
Definition factory_a : factory := [SExport "v" (ELit (VNum 1))].

Definition st_a : state := set_modules (<[KNum 1 := factory_a]>) init.

Definition st_a1 : state := state_after (__webpack_require__ 1 (KNum 1) st_a).

(** A module whose factory writes one export and then throws. *)
Definition factory_partial : factory :=
  [SExport "a" (ELit (VNum 1)); SThrow (VStr "boom"); SExport "b" (ELit (VNum 2))].

Definition st_partial : state := set_modules (<[KNum 2 := factory_partial]>) init.

Definition st_partial1 : state :=
  state_after (__webpack_require__ 1 (KNum 2) st_partial).


(** Unit 5 requested in the initial state, and then its timer expiring. *)
Definition fut5 : future := fst (loadChunk (KNum 5) init).
Definition st_load5 : state := snd (loadChunk (KNum 5) init).
Definition st_timeout5 : state := timeout_fires 0 st_load5.

(** Unit 5 requested again after the timeout, and a late [load] event
    of the first script. *)
Definition fut5_retry : future := fst (loadChunk (KNum 5) st_timeout5).
Definition st_retry5 : state := snd (loadChunk (KNum 5) st_timeout5).
Definition st_stale5 : state := script_event 0 "load" st_retry5.

(** Unit 5 requested a second time while the first load is pending. *)
Definition fut5' : future := fst (loadChunk (KNum 5) st_load5).
Definition st_load5' : state := snd (loadChunk (KNum 5) st_load5).

(** A delivery of unit 5 with module 1 as its entry module. *)
Definition delivery5 : chunk_data :=
  {| chunkIds := [KNum 5]; moreModules := [(KNum 1, factory_a)];
     executeModules := KNum 1 |}.

Definition st_delivered5 : state := state_after (jsonpArray_push 1 delivery5 st_load5).

(** A queue holding one entry, module 1 requiring units 5 and 6, with
    neither unit, unit 5 only, and both units complete. *)
Definition factory_entry : factory := [SExport "started" (ELit (VNum 1))].

Definition st_queued : state :=
  set_chunkQueue (fun _ => [[KNum 1; KNum 5; KNum 6]])
    (set_modules (<[KNum 1 := factory_entry]>) init).

Definition st_queued5 : state := mark_chunk st_queued (KNum 5).
Definition st_queued56 : state := mark_chunk st_queued5 (KNum 6).

(** A delivery of unit 5 alone, without modules, naming module 1 as
    entry module. *)
Definition delivery5_only : chunk_data :=
  {| chunkIds := [KNum 5]; moreModules := []; executeModules := KNum 1 |}.

(** A delivery of unit 1 that names no entry module, and one that also
    carries a factory under the key [undefined]. *)
Definition delivery_no_entry : chunk_data :=
  {| chunkIds := [KNum 1]; moreModules := []; executeModules := KUndefined |}.

Definition delivery_no_entry' : chunk_data :=
  {| chunkIds := [KNum 1]; moreModules := [(KUndefined, factory_a)];
     executeModules := KUndefined |}.

Definition st_no_entry : state := state_after (jsonpArray_push 1 delivery_no_entry init).
Definition st_no_entry' : state := state_after (jsonpArray_push 1 delivery_no_entry' init).

(** A delivery of units 5 and 6 carrying two factories for module 1 and
    one for module 3, with module 1 as entry module; and the state it
    leaves from a state where unit 8 is complete already. *)
Definition delivery56 : chunk_data :=
  {| chunkIds := [KNum 5; KNum 6];
     moreModules := [(KNum 1, factory_partial); (KNum 3, factory_entry);
                     (KNum 1, factory_a)];
     executeModules := KNum 1 |}.

Definition st_unit8 : state := mark_chunk init (KNum 8).

Definition st_delivered56 : state :=
  state_after (jsonpArray_push 1 delivery56 st_unit8).

(** Units 5 and 6 requested one after the other in the initial state. *)
Definition st_load56 : state := snd (loadChunk (KNum 6) st_load5).

(** Modules 1 and 2 whose factories require each other. *)
Definition st_cycle : state :=
  set_modules (fun _ => {[ KNum 1 := [SExport "peer" (ERequire (KNum 2))];
                           KNum 2 := [SExport "peer" (ERequire (KNum 1))] ]}) init.

(** A module whose factory writes an export and then replaces
    [module.exports] by the number 7. *)
Definition st_replace : state :=
  set_modules (<[KNum 4 := [SExport "v" (ELit (VNum 1))] ++ [SModuleExports (ELit (VNum 7))]]>)
    init.

(** Unit 5 delivered in the initial state, without having been
    requested. *)
Definition st_only_delivered5 : state := state_after (jsonpArray_push 1 delivery5 init).

(** * Proofs *)

(** ** Properties of the registry *)

Lemma run_rel_refl st : run_rel st st.
Proof.
  constructor; try reflexivity.
  - intros id m H. exists m. split; [exact H | reflexivity].
  - exists []. rewrite app_nil_r. split; [reflexivity|]. split; [constructor|].
    intros id H. inversion H.
Qed.

Lemma run_rel_trans st1 st2 st3 : run_rel st1 st2 -> run_rel st2 st3 -> run_rel st1 st3.
Proof.
  intros [] []. constructor; try congruence.
  - intros id m H. destruct (rr_cache0 id m H) as (m' & H' & Hl).
    destruct (rr_cache1 id m' H') as (m'' & H'' & Hl').
    exists m''. split; [exact H''|congruence].
  - destruct rr_calls0 as (new1 & E1 & N1 & C1).
    destruct rr_calls1 as (new2 & E2 & N2 & C2).
    exists (new1 ++ new2). split; [rewrite E2, E1, app_assoc; reflexivity|].
    split.
    + apply NoDup_app. split; [exact N1|]. split; [|exact N2].
      intros id Hin1 Hin2. destruct (C1 id Hin1) as [_ [m Hm]].
      destruct (C2 id Hin2) as [Hnone _]. congruence.
    + intros id Hin. apply elem_of_app in Hin. destruct Hin as [Hin|Hin].
      * destruct (C1 id Hin) as [Hn [m Hm]]. split; [exact Hn|].
        destruct (rr_cache1 id m Hm) as (m' & Hm' & _). eauto.
      * destruct (C2 id Hin) as [Hn Hs]. split; [|exact Hs].
        destruct (installedModules st1 !! id) as [m|] eqn:E; [|reflexivity].
        destruct (rr_cache0 id m E) as (m' & Hm' & _). congruence.
Qed.

Lemma run_rel_heap f st : run_rel st (set_heap f st).
Proof.
  constructor; try reflexivity.
  - intros id m H. exists m. split; [exact H | reflexivity].
  - exists []. simpl. rewrite app_nil_r. split; [reflexivity|]. split; [constructor|].
    intros id H. inversion H.
Qed.

Lemma run_rel_write_prop target k v st : run_rel st (write_prop target k v st).
Proof. destruct target; simpl; try apply run_rel_refl. apply run_rel_heap. Qed.

Lemma run_rel_set_exports v self st :
  run_rel st (set_installedModules (alter (set_exports v) self) st).
Proof.
  constructor; try reflexivity.
  - intros id m H. simpl. rewrite lookup_alter. case_decide as E.
    + subst id. rewrite H. simpl. eexists. split; [reflexivity|reflexivity].
    + exists m. split; [exact H|reflexivity].
  - exists []. simpl. rewrite app_nil_r. split; [reflexivity|]. split; [constructor|].
    intros id H. inversion H.
Qed.

Section FactoryFacts.
Variable require : key -> state -> outcome val.
Hypothesis require_run : forall id st st',
  outcome_state (require id st) = Some st' -> run_rel st st'.

Lemma eval_expr_run e st st' :
  outcome_state (eval_expr require e st) = Some st' -> run_rel st st'.
Proof.
  destruct e; simpl.
  - intros [= <-]. apply run_rel_refl.
  - apply require_run.
  - intros [= <-]. apply run_rel_heap.
Qed.

Lemma exec_stmt_run self ex s st st' :
  outcome_state (exec_stmt require self ex s st) = Some st' -> run_rel st st'.
Proof.
  destruct s as [k e|e|e|v]; simpl.
  - pose proof (eval_expr_run e st) as He.
    destruct (eval_expr require e st) as [w st1|x st1|]; simpl in *.
    + intros [= <-]. eapply run_rel_trans; [apply He; reflexivity|].
      apply run_rel_write_prop.
    + intros [= <-]. apply He; reflexivity.
    + discriminate.
  - pose proof (eval_expr_run e st) as He.
    destruct (eval_expr require e st) as [w st1|x st1|]; simpl in *.
    + intros [= <-]. eapply run_rel_trans; [apply He; reflexivity|].
      apply run_rel_set_exports.
    + intros [= <-]. apply He; reflexivity.
    + discriminate.
  - pose proof (eval_expr_run e st) as He.
    destruct (eval_expr require e st) as [w st1|x st1|]; simpl in *.
    + intros [= <-]. apply He; reflexivity.
    + intros [= <-]. apply He; reflexivity.
    + discriminate.
  - intros [= <-]. apply run_rel_refl.
Qed.

Lemma exec_stmts_run self ex body : forall st st',
  outcome_state (exec_stmts require self ex body st) = Some st' -> run_rel st st'.
Proof.
  induction body as [|s rest IH]; intros st st'; simpl.
  - intros [= <-]. apply run_rel_refl.
  - pose proof (exec_stmt_run self ex s st) as Hs.
    destruct (exec_stmt require self ex s st) as [u st1|x st1|]; simpl in *.
    + intros H. eapply run_rel_trans; [apply Hs; reflexivity|]. apply IH, H.
    + intros [= <-]. apply Hs; reflexivity.
    + discriminate.
Qed.
End FactoryFacts.

Arguments __webpack_require__ : simpl never.

Lemma require_unfold fuel moduleId st :
  __webpack_require__ (S fuel) moduleId st =
  match installedModules st !! moduleId with
  | Some m => Ret (mod_exports m) st
  | None =>
      match modules st !! moduleId with
      | None => Throw TypeError (cache_fresh moduleId st)
      | Some f =>
          let* (_u, st4) :=
            exec_stmts (__webpack_require__ fuel) moduleId (VObj (length (heap st))) f
              (enter_factory moduleId st) in
          let st5 := set_installedModules (alter set_loaded moduleId) st4 in
          Ret (default VUndef (mod_exports <$> installedModules st5 !! moduleId)) st5
      end
  end.
Proof. reflexivity. Qed.

Lemma run_rel_cache_fresh moduleId st :
  installedModules st !! moduleId = None ->
  forall id m, installedModules st !! id = Some m ->
    installedModules (cache_fresh moduleId st) !! id = Some m.
Proof.
  intros Hnone id m H. simpl. rewrite lookup_insert_ne; [exact H|congruence].
Qed.

Lemma run_rel_enter_factory moduleId st :
  installedModules st !! moduleId = None ->
  run_rel st (enter_factory moduleId st).
Proof.
  intros Hnone. constructor; try reflexivity.
  - intros id m H. exists m. split; [|reflexivity].
    simpl. rewrite lookup_insert_ne; [exact H|congruence].
  - exists [moduleId]. split; [reflexivity|]. split.
    + apply NoDup_singleton.
    + intros id Hin. apply list_elem_of_singleton in Hin. subst id.
      split; [exact Hnone|]. simpl. rewrite lookup_insert_eq. eauto.
Qed.

Lemma run_rel_set_loaded moduleId st st' :
  installedModules st !! moduleId = None ->
  run_rel st st' ->
  run_rel st (set_installedModules (alter set_loaded moduleId) st').
Proof.
  intros Hnone []. constructor; try assumption.
  - intros id m H. destruct (rr_cache0 id m H) as (m' & Hm' & Hl).
    exists m'. split; [|exact Hl]. simpl.
    rewrite lookup_alter_ne; [exact Hm'|congruence].
  - destruct rr_calls0 as (new & E & N & C). exists new.
    split; [exact E|]. split; [exact N|].
    intros id Hin. destruct (C id Hin) as [Hn [m Hm]]. split; [exact Hn|].
    simpl. rewrite lookup_alter. case_decide as Eid; [subst id|]; rewrite Hm; simpl; eauto.
Qed.

(** Every request, returning or throwing, changes the state within
    [run_rel]. *)
Lemma require_run fuel : forall moduleId st st',
  outcome_state (__webpack_require__ fuel moduleId st) = Some st' -> run_rel st st'.
Proof.
  induction fuel as [|fuel IH]; intros moduleId st st'; [discriminate|].
  rewrite require_unfold.
  destruct (installedModules st !! moduleId) as [m|] eqn:Hc.
  - intros [= <-]. apply run_rel_refl.
  - destruct (modules st !! moduleId) as [f|] eqn:Hf.
    + pose proof (exec_stmts_run _ IH moduleId (VObj (length (heap st))) f
                    (enter_factory moduleId st)) as Hx.
      destruct (exec_stmts _ _ _ f _) as [u st4|x st4|]; simpl in *.
      * intros [= <-]. apply run_rel_set_loaded; [exact Hc|].
        eapply run_rel_trans; [apply run_rel_enter_factory, Hc|].
        apply Hx; reflexivity.
      * intros [= <-].
        eapply run_rel_trans; [apply run_rel_enter_factory, Hc|].
        apply Hx; reflexivity.
      * discriminate.
    + intros [= <-]. constructor; try reflexivity.
      * intros id m H. exists m. split; [|reflexivity].
        apply run_rel_cache_fresh; assumption.
      * exists []. simpl. rewrite app_nil_r. split; [reflexivity|].
        split; [constructor|]. intros id H. inversion H.
Qed.

Lemma invocations_app moduleId st st' new :
  factory_calls st' = factory_calls st ++ new ->
  invocations moduleId st' =
  invocations moduleId st + length (filter (fun k => k = moduleId) new).
Proof.
  intros E. unfold invocations. rewrite E, filter_app, length_app. reflexivity.
Qed.

Lemma filter_eq_absent (moduleId : key) (new : list key) :
  moduleId ∉ new -> filter (fun k => k = moduleId) new = [].
Proof.
  induction new as [|k new IH]; intros Hn; [reflexivity|].
  rewrite filter_cons. case_decide as E.
  - subst k. exfalso. apply Hn. left.
  - apply IH. intros H. apply Hn. right. exact H.
Qed.

(** Running from a state where [moduleId] is cached never invokes its
    factory. *)
Lemma run_rel_invocations moduleId st st' :
  run_rel st st' -> is_Some (installedModules st !! moduleId) ->
  invocations moduleId st' = invocations moduleId st.
Proof.
  intros [] [m Hm]. destruct rr_calls0 as (new & E & _ & C).
  rewrite (invocations_app moduleId st st' new E).
  rewrite filter_eq_absent; [simpl; lia|].
  intros Hin. destruct (C _ Hin) as [Hn _]. congruence.
Qed.




(** The scenario of the specification: the object returned twice holds
    [v = 1], and the factory ran once. *)
Example require_a_exports :
  __webpack_require__ 1 (KNum 1) st_a = Ret (VObj 0) st_a1 /\
  (heap st_a1 !! 0) ≫= (fun o => o !! "v") = Some (VNum 1) /\
  factory_calls st_a1 = [KNum 1].
Proof. vm_compute. repeat split. Qed.

(** C10: when a request throws, the record of the requested module is
    cached with [l = false]; every later request returns the exports of
    that record and leaves the state as it is, so the factory is not
    invoked again.  Up to the throw the factory was invoked once if one
    was registered. *)
Theorem require_throw_keeps_record (fuel : nat) (moduleId : key) (st st' : state) (e : exn) :
  __webpack_require__ fuel moduleId st = Throw e st' ->
  exists m,
    installedModules st' !! moduleId = Some m /\ mod_l m = false /\
    invocations moduleId st' =
      invocations moduleId st +
      match modules st !! moduleId with Some _ => 1 | None => 0 end /\
    forall fuel', __webpack_require__ (S fuel') moduleId st' = Ret (mod_exports m) st'.
Proof.
  destruct fuel as [|fuel]; [discriminate|].
  rewrite require_unfold.
  destruct (installedModules st !! moduleId) as [m|] eqn:Hc; [discriminate|].
  destruct (modules st !! moduleId) as [f|] eqn:Hf.
  - pose proof (exec_stmts_run _ (require_run fuel) moduleId
                  (VObj (length (heap st))) f (enter_factory moduleId st)) as Hx.
    destruct (exec_stmts _ _ _ f _) as [u st4|x st4|]; simpl in *; [discriminate| |discriminate].
    intros [= <- <-]. specialize (Hx st4 eq_refl).
    destruct (rr_cache _ _ Hx moduleId (fresh_record moduleId st)) as (m4 & Hm4 & Hl).
    { simpl. apply lookup_insert_eq. }
    exists m4. split; [exact Hm4|]. split; [exact Hl|]. split.
    + rewrite (run_rel_invocations moduleId _ _ Hx).
      * unfold invocations. simpl. rewrite filter_app, length_app.
        rewrite filter_cons. rewrite decide_True by reflexivity. reflexivity.
      * simpl. rewrite lookup_insert_eq. eauto.
    + intros fuel'. rewrite require_unfold, Hm4. reflexivity.
  - intros [= <- <-]. exists (fresh_record moduleId st).
    split; [simpl; apply lookup_insert_eq|]. split; [reflexivity|]. split.
    + unfold invocations. simpl. lia.
    + intros fuel'. rewrite require_unfold. simpl. rewrite lookup_insert_eq. reflexivity.
Qed.

Lemma require_throw_keeps_record_witness :
  exists m,
    installedModules st_partial1 !! KNum 2 = Some m /\ mod_l m = false /\
    invocations (KNum 2) st_partial1 =
      invocations (KNum 2) st_partial +
      match modules st_partial !! KNum 2 with Some _ => 1 | None => 0 end /\
    forall fuel', __webpack_require__ (S fuel') (KNum 2) st_partial1
                  = Ret (mod_exports m) st_partial1.
Proof.
  apply (require_throw_keeps_record 1 (KNum 2) st_partial st_partial1
           (Thrown (VStr "boom"))).
  vm_compute. reflexivity.
Defined.

(** The exports object left behind holds what was written before the
    throw and nothing of what follows it. *)
Example require_partial_exports :
  __webpack_require__ 1 (KNum 2) st_partial = Throw (Thrown (VStr "boom")) st_partial1 /\
  __webpack_require__ 1 (KNum 2) st_partial1 = Ret (VObj 0) st_partial1 /\
  (heap st_partial1 !! 0) ≫= (fun o => o !! "a") = Some (VNum 1) /\
  (heap st_partial1 !! 0) ≫= (fun o => o !! "b") = None.
Proof. vm_compute. repeat split. Qed.




(** ** Fuel: more fuel keeps a result, and enough fuel gives one *)

Section FactoryFuel.
Variables require require' : key -> state -> outcome val.
Hypothesis require_le : forall id st,
  require id st <> OutOfFuel -> require' id st = require id st.

Lemma eval_expr_le e st :
  eval_expr require e st <> OutOfFuel ->
  eval_expr require' e st = eval_expr require e st.
Proof. destruct e; simpl; auto. Qed.

Lemma exec_stmt_le self ex s st :
  exec_stmt require self ex s st <> OutOfFuel ->
  exec_stmt require' self ex s st = exec_stmt require self ex s st.
Proof.
  destruct s as [k e|e|e|v]; simpl; try reflexivity;
    (intros H; rewrite eval_expr_le; [reflexivity|];
     intros E; rewrite E in H; apply H; reflexivity).
Qed.

Lemma exec_stmts_le self ex body : forall st,
  exec_stmts require self ex body st <> OutOfFuel ->
  exec_stmts require' self ex body st = exec_stmts require self ex body st.
Proof.
  induction body as [|s rest IH]; intros st; simpl; [reflexivity|].
  intros H. rewrite exec_stmt_le.
  - destruct (exec_stmt require self ex s st) as [u st1|x st1|]; simpl in *;
      [apply IH, H|reflexivity|reflexivity].
  - intros E. rewrite E in H. apply H. reflexivity.
Qed.
End FactoryFuel.

Lemma require_fuel_S fuel : forall moduleId st,
  __webpack_require__ fuel moduleId st <> OutOfFuel ->
  __webpack_require__ (S fuel) moduleId st = __webpack_require__ fuel moduleId st.
Proof.
  induction fuel as [|fuel IH]; intros moduleId st H; [exfalso; apply H; reflexivity|].
  rewrite (require_unfold (S fuel)). rewrite require_unfold in H |- *.
  destruct (installedModules st !! moduleId); [reflexivity|].
  destruct (modules st !! moduleId) as [f|]; [|reflexivity].
  rewrite (exec_stmts_le _ _ IH); [reflexivity|].
  intros E. rewrite E in H. apply H. reflexivity.
Qed.

Lemma require_fuel_le fuel fuel' moduleId st :
  fuel <= fuel' ->
  __webpack_require__ fuel moduleId st <> OutOfFuel ->
  __webpack_require__ fuel' moduleId st = __webpack_require__ fuel moduleId st.
Proof.
  induction 1 as [|fuel' Hle IH]; intros H; [reflexivity|].
  rewrite require_fuel_S; rewrite IH; auto.
Qed.

Lemma run_rel_dom st st' :
  run_rel st st' -> dom (installedModules st) ⊆ dom (installedModules st').
Proof.
  intros Hr id Hin. apply elem_of_dom in Hin. destruct Hin as [m Hm].
  destruct (rr_cache _ _ Hr id m Hm) as (m' & Hm' & _).
  apply elem_of_dom. eauto.
Qed.

Lemma run_rel_uncached st st' : run_rel st st' -> uncached st' <= uncached st.
Proof.
  intros Hr. unfold uncached. apply subseteq_size.
  rewrite (rr_modules _ _ Hr). pose proof (run_rel_dom _ _ Hr) as Hd.
  intros x Hx. apply elem_of_difference in Hx. destruct Hx as [H1 H2].
  apply elem_of_difference. split; [exact H1|]. intros H3. apply H2, Hd, H3.
Qed.

Lemma enter_factory_uncached moduleId f st :
  modules st !! moduleId = Some f ->
  installedModules st !! moduleId = None ->
  uncached (enter_factory moduleId st) < uncached st.
Proof.
  intros Hf Hc. unfold uncached. apply subset_size. simpl.
  rewrite dom_insert_L.
  assert (Hd : moduleId ∈ dom (modules st)) by (apply elem_of_dom; eauto).
  assert (Hn : moduleId ∉ dom (installedModules st)) by (apply not_elem_of_dom; exact Hc).
  split.
  - intros x Hx. apply elem_of_difference in Hx. destruct Hx as [H1 H2].
    apply elem_of_difference. split; [exact H1|].
    intros H3. apply H2, elem_of_union. right. exact H3.
  - intros Hsub. specialize (Hsub moduleId).
    rewrite !elem_of_difference, elem_of_union, elem_of_singleton in Hsub.
    destruct Hsub as [_ Hsub]; [split; assumption|]. apply Hsub. left. reflexivity.
Qed.

Section FactoryTotal.
Variable require : key -> state -> outcome val.
Variable fuel : nat.
Hypothesis require_run' : forall id st st',
  outcome_state (require id st) = Some st' -> run_rel st st'.
Hypothesis require_defined : forall id st,
  uncached st < fuel -> require id st <> OutOfFuel.

Lemma eval_expr_defined e st :
  uncached st < fuel -> eval_expr require e st <> OutOfFuel.
Proof. destruct e; simpl; auto; discriminate. Qed.

Lemma exec_stmt_defined self ex s st :
  uncached st < fuel -> exec_stmt require self ex s st <> OutOfFuel.
Proof.
  intros Hu. destruct s as [k e|e|e|v]; simpl; try discriminate;
    (pose proof (eval_expr_defined e st Hu) as Hd;
     destruct (eval_expr require e st); simpl;
       [discriminate|discriminate|exfalso; apply Hd; reflexivity]).
Qed.

Lemma exec_stmts_defined self ex body : forall st,
  uncached st < fuel -> exec_stmts require self ex body st <> OutOfFuel.
Proof.
  induction body as [|s rest IH]; intros st Hu; simpl; [discriminate|].
  pose proof (exec_stmt_defined self ex s st Hu) as Hd.
  pose proof (exec_stmt_run _ require_run' self ex s st) as Hr.
  destruct (exec_stmt require self ex s st) as [u st1|x st1|]; simpl in *;
    [|discriminate|exact Hd].
  apply IH. specialize (Hr st1 eq_refl). apply run_rel_uncached in Hr. lia.
Qed.
End FactoryTotal.

(** A request has a result as soon as the fuel exceeds the number of
    factories that can still run. *)
Lemma require_defined fuel : forall moduleId st,
  uncached st < fuel -> __webpack_require__ fuel moduleId st <> OutOfFuel.
Proof.
  induction fuel as [|fuel IH]; intros moduleId st Hu; [lia|].
  rewrite require_unfold.
  destruct (installedModules st !! moduleId) eqn:Hc; [discriminate|].
  destruct (modules st !! moduleId) as [f|] eqn:Hf; [|discriminate].
  pose proof (enter_factory_uncached moduleId f st Hf Hc) as Hlt.
  pose proof (exec_stmts_defined _ fuel (require_run fuel) IH moduleId
                (VObj (length (heap st))) f (enter_factory moduleId st)) as Hd.
  destruct (exec_stmts _ _ _ f _); simpl in *; [discriminate|discriminate|].
  exfalso. apply Hd; [lia|reflexivity].
Qed.

(** The registry is total: every request returns or throws. *)
Lemma require_total (moduleId : key) (st : state) :
  exists fuel, forall fuel', fuel <= fuel' ->
    __webpack_require__ fuel' moduleId st <> OutOfFuel.
Proof.
  exists (S (uncached st)). intros fuel' Hle. apply require_defined. lia.
Qed.

(** ** Properties of the unit loader *)

Lemma slot_of_insert_eq (table : gmap key slot) k s :
  slot_of (<[k := s]> table) k = s.
Proof. unfold slot_of. rewrite lookup_insert_eq. reflexivity. Qed.

Lemma slot_of_insert_ne (table : gmap key slot) k k' s :
  k <> k' -> slot_of (<[k := s]> table) k' = slot_of table k'.
Proof. intros H. unfold slot_of. rewrite lookup_insert_ne by exact H. reflexivity. Qed.

(** A request for a unit that is neither pending nor complete starts a
    fetch: one new promise, one new script with its timer armed. *)
Lemma loadChunk_unrequested chunkId st :
  slot_of (chunkStatus st) chunkId = Undefined ->
  loadChunk chunkId st = ([APromise (length (promises st))], fresh_load chunkId st) /\
  scripts (fresh_load chunkId st) = scripts st ++ [fresh_script chunkId] /\
  promises (fresh_load chunkId st) = promises st ++ [Pending] /\
  slot_of (chunkStatus (fresh_load chunkId st)) chunkId = Waiter (length (promises st)).
Proof.
  intros H. unfold fresh_load, loadChunk. rewrite H. simpl.
  repeat split. apply slot_of_insert_eq.
Qed.

Lemma loadChunk_pending chunkId p st :
  slot_of (chunkStatus st) chunkId = Waiter p ->
  loadChunk chunkId st = ([AValue (Waiter p)], st).
Proof. intros H. unfold loadChunk. rewrite H. reflexivity. Qed.

Lemma loadChunk_complete chunkId st :
  slot_of (chunkStatus st) chunkId = Zero ->
  loadChunk chunkId st = ([], st).
Proof. intros H. unfold loadChunk. rewrite H. reflexivity. Qed.

(** The future a second [loadChunk] returns for a pending unit does not
    depend on any promise: it is fulfilled in every state. *)
Lemma loadChunk_pending_fulfilled chunkId p st :
  slot_of (chunkStatus st) chunkId = Waiter p ->
  snd (loadChunk chunkId st) = st /\
  forall st', future_state st' (fst (loadChunk chunkId st)) = Fulfilled.
Proof.
  intros H. rewrite (loadChunk_pending chunkId p st H). split; reflexivity.
Qed.

(** What the handler of script [k] does while the slot of its unit holds
    a pending load. *)
Lemma onScriptComplete_pending k sc p ev st :
  scripts st !! k = Some sc ->
  slot_of (chunkStatus st) (sc_chunkId sc) = Waiter p ->
  promises st !! p = Some Pending ->
  let error := chunk_load_error (sc_chunkId sc) (event_class ev)
                 (event_request ev (clearTimeout k st)) in
  let st' := onScriptComplete k ev st in
  promises st' = <[p := Rejected k]> (promises st) /\
  scripts st' = <[k := set_error error (set_timer false sc)]> (scripts st) /\
  chunkStatus st' = <[sc_chunkId sc := Undefined]> (chunkStatus st).
Proof.
  intros Hk Hs Hp. unfold onScriptComplete. rewrite Hk. simpl. rewrite Hs. simpl.
  unfold reject, settle. simpl. rewrite Hp. simpl.
  repeat split.
  apply list_eq. intros j.
  destruct (decide (j = k)) as [->|Hne].
  - rewrite list_lookup_insert_eq by (eapply lookup_lt_Some; exact Hk).
    rewrite !list_lookup_alter_eq, Hk. reflexivity.
  - rewrite list_lookup_insert_ne by congruence.
    rewrite !list_lookup_alter_ne by congruence. reflexivity.
Qed.

Lemma event_class_not_load ev : ev_type ev <> "load" -> event_class ev = ev_type ev.
Proof.
  intros H. unfold event_class.
  destruct (String.eqb (ev_type ev) "load") eqn:E; [|reflexivity].
  apply String.eqb_eq in E. contradiction.
Qed.

Lemma event_request_self k sc ev st :
  scripts st !! k = Some sc -> ev_target ev = Some k ->
  event_request ev (clearTimeout k st) = VStr (sc_src sc).
Proof.
  intros Hk Ht. unfold event_request. rewrite Ht. simpl.
  rewrite list_lookup_alter_eq, Hk. reflexivity.
Qed.

Lemma future_state_rejected p k st :
  promises st !! p = Some (Rejected k) -> future_state st [APromise p] = Rejected k.
Proof. intros H. simpl. rewrite H. reflexivity. Qed.

(** The handler of a script whose timer is spent and whose unit's slot
    already reads [undefined] changes nothing. *)
Lemma onScriptComplete_reset k sc ev st :
  scripts st !! k = Some sc -> sc_timer sc = false ->
  chunkStatus st !! sc_chunkId sc = Some Undefined ->
  onScriptComplete k ev st = st.
Proof.
  intros Hk Ht Hs. unfold onScriptComplete. rewrite Hk. simpl.
  unfold slot_of. rewrite Hs. simpl.
  destruct st; unfold clearTimeout, set_chunkStatus, set_scripts; simpl in *.
  f_equal.
  - apply insert_id, Hs.
  - apply list_eq. intros j. destruct (decide (j = k)) as [->|Hne].
    + rewrite list_lookup_alter_eq, Hk. simpl. f_equal.
      destruct sc; simpl in *; subst; reflexivity.
    + rewrite list_lookup_alter_ne by congruence. reflexivity.
Qed.

(** C5: an event other than [load] on the script of a pending load
    rejects the promise of that load with the script's error object,
    whose type is the type of the event, whose request is the locator
    of the script and whose message names the unit; the slot of the
    unit reads [undefined] afterwards, and the next [loadChunk] for the
    unit starts a new fetch with a new pending promise. *)
Theorem load_error_rejects_and_resets
    (k : nat) (sc : script) (p : nat) (type : string) (st : state) :
  scripts st !! k = Some sc ->
  slot_of (chunkStatus st) (sc_chunkId sc) = Waiter p ->
  promises st !! p = Some Pending ->
  type <> "load" ->
  let st' := script_event k type st in
  let chunkId := sc_chunkId sc in
  future_state st' [APromise p] = Rejected k /\
  (exists error, sc_error <$> scripts st' !! k = Some error /\
     err_type error = VStr type /\
     err_request error = VStr (sc_src sc) /\
     err_name error = "ChunkLoadError" /\
     err_message error =
       "Loading chunk " +:+ key_to_string chunkId +:+ " failed." +:+
       newline +:+ "(" +:+ type +:+ ": " +:+ sc_src sc +:+ ")") /\
  slot_of (chunkStatus st') chunkId = Undefined /\
  loadChunk chunkId st' = ([APromise (length (promises st'))], fresh_load chunkId st') /\
  scripts (fresh_load chunkId st') = scripts st' ++ [fresh_script chunkId] /\
  future_state (fresh_load chunkId st') [APromise (length (promises st'))] = Pending.
Proof.
  intros Hk Hs Hp Hty st' chunkId.
  destruct (onScriptComplete_pending k sc p {| ev_type := type; ev_target := Some k |}
              st Hk Hs Hp) as (Ep & Es & Ec).
  fold (script_event k type st) in Ep, Es, Ec. fold st' in Ep, Es, Ec.
  rewrite event_class_not_load in Es by exact Hty.
  rewrite (event_request_self k sc) in Es by (exact Hk || reflexivity).
  simpl in Es.
  assert (Hslot : slot_of (chunkStatus st') chunkId = Undefined).
  { rewrite Ec. apply slot_of_insert_eq. }
  destruct (loadChunk_unrequested chunkId st' Hslot) as (El & Esc & Epr & _).
  split.
  { apply future_state_rejected. rewrite Ep.
    apply list_lookup_insert_eq. eapply lookup_lt_Some; exact Hp. }
  split.
  { eexists. split.
    - rewrite Es. rewrite list_lookup_insert_eq by (eapply lookup_lt_Some; exact Hk).
      reflexivity.
    - repeat split. }
  split; [exact Hslot|]. split; [exact El|]. split; [exact Esc|].
  simpl. rewrite Epr. rewrite lookup_app_r by lia.
  rewrite Nat.sub_diag. reflexivity.
Qed.

Lemma load_error_rejects_and_resets_witness :
  let st' := script_event 0 "error" st_load5 in
  let chunkId := sc_chunkId (fresh_script (KNum 5)) in
  future_state st' [APromise 0] = Rejected 0 /\
  (exists error, sc_error <$> scripts st' !! 0 = Some error /\
     err_type error = VStr "error" /\
     err_request error = VStr (sc_src (fresh_script (KNum 5))) /\
     err_name error = "ChunkLoadError" /\
     err_message error =
       "Loading chunk " +:+ key_to_string chunkId +:+ " failed." +:+
       newline +:+ "(" +:+ "error" +:+ ": " +:+ sc_src (fresh_script (KNum 5)) +:+ ")") /\
  slot_of (chunkStatus st') chunkId = Undefined /\
  loadChunk chunkId st' = ([APromise (length (promises st'))], fresh_load chunkId st') /\
  scripts (fresh_load chunkId st') = scripts st' ++ [fresh_script chunkId] /\
  future_state (fresh_load chunkId st') [APromise (length (promises st'))] = Pending.
Proof.
  apply (load_error_rejects_and_resets 0 (fresh_script (KNum 5)) 0 "error" st_load5).
  - reflexivity.
  - reflexivity.
  - reflexivity.
  - discriminate.
Defined.

(** The error object of a failed load of unit 5, field by field. *)
Example load_error_object :
  sc_error <$> scripts (script_event 0 "error" st_load5) !! 0
  = Some {| err_message :=
              "Loading chunk 5 failed." +:+ newline +:+
              "(error: https://cdn2.edulastic.com/JS/dist/5.chunk.js)";
            err_name := "ChunkLoadError";
            err_type := VStr "error";
            err_request := VStr "https://cdn2.edulastic.com/JS/dist/5.chunk.js" |}.
Proof. vm_compute. reflexivity. Qed.

(** C4 as stated fails, in two ways.  The error of a timed-out load of
    unit 5 carries the locator of the script.  And when unit 5 has been
    requested again after the timeout, a late [load] event of the first
    script is not a no-op: the future of the new load, pending until
    then, is rejected with the error object of the first script, and
    the slot of the unit is reset.  The first future stays rejected. *)
Lemma timeout_error_carries_locator :
  future_state st_timeout5 fut5 = Rejected 0 /\
  sc_error <$> scripts st_timeout5 !! 0
    = Some (chunk_load_error (KNum 5) "timeout"
              (VStr "https://cdn2.edulastic.com/JS/dist/5.chunk.js")) /\
  err_request <$> (sc_error <$> scripts st_timeout5 !! 0) <> Some VUndef /\
  fut5_retry = [APromise 1] /\
  future_state st_retry5 fut5_retry = Pending /\
  future_state st_stale5 fut5_retry = Rejected 0 /\
  slot_of (chunkStatus st_retry5) (KNum 5) = Waiter 1 /\
  slot_of (chunkStatus st_stale5) (KNum 5) = Undefined /\
  future_state st_stale5 fut5 = Rejected 0.
Proof. vm_compute. repeat split. discriminate. Qed.

(** C2 at a failing input: unit 5 is delivered while its load is
    pending.  The delivery marks it in [installedChunks] only; the slot
    in [chunkStatus] still holds the pending load, whose promise stays
    pending and is rejected as ["missing"] when the script's [load]
    event follows. *)
Lemma delivery_leaves_load_pending :
  jsonpArray_push 1 delivery5 st_load5 = Ret (VObj 0) st_delivered5 /\
  installedChunks st_delivered5 !! KNum 5 = Some Zero /\
  chunkStatus st_delivered5 !! KNum 5 = Some (Waiter 0) /\
  future_state st_delivered5 fut5 = Pending /\
  future_state (script_event 0 "load" st_delivered5) fut5 = Rejected 0 /\
  err_type <$> (sc_error <$> scripts (script_event 0 "load" st_delivered5) !! 0)
    = Some (VStr "missing").
Proof. vm_compute. repeat split. Qed.

(** C3 at a failing input: a second [loadChunk] for unit 5 while the
    first is pending creates no script, but the future it returns waits
    for the slot array and not for the promise: it is fulfilled while
    the first is pending, and stays fulfilled when the first is
    rejected. *)
Lemma second_load_not_shared :
  fut5 = [APromise 0] /\ fut5' = [AValue (Waiter 0)] /\
  scripts st_load5' = scripts st_load5 /\ length (scripts st_load5') = 1 /\
  future_state st_load5' fut5 = Pending /\
  future_state st_load5' fut5' = Fulfilled /\
  future_state (timeout_fires 0 st_load5') fut5 = Rejected 0 /\
  future_state (timeout_fires 0 st_load5') fut5' = Fulfilled.
Proof. vm_compute. repeat split. Qed.

(** ** Properties of the deferred queue *)

Lemma all_installed_spec table deps acc :
  all_installed table deps acc = true <-> acc = true /\ Forall (complete table) deps.
Proof.
  revert acc. induction deps as [|d deps IH]; intros acc; simpl.
  - split; [intros H; split; [exact H|constructor]|intros [H _]; exact H].
  - rewrite IH. rewrite Forall_cons. unfold slot_of, complete at 2.
    destruct (table !! d) as [[| |p]|]; simpl;
      (split; [intros [H1 H2]|intros [H1 [H2 H3]]]);
      try discriminate; auto.
Qed.

Lemma fulfilled_satisfied table deferredModule :
  fulfilled table deferredModule = true <-> satisfied table deferredModule.
Proof.
  unfold fulfilled, satisfied. rewrite all_installed_spec. tauto.
Qed.

Lemma checkDeferredModules_from_unfold fuel i result st :
  checkDeferredModules_from (S fuel) i result st =
  match chunkQueue st !! i with
  | None => Ret result st
  | Some deferredModule =>
      if fulfilled (installedChunks st) deferredModule then
        let st3 :=
          set_entry_runs (fun r => r ++ [entry_of deferredModule])
            (set_require_s (fun _ => entry_of deferredModule)
               (set_chunkQueue (delete i) st)) in
        let* (v, st4) := __webpack_require__ fuel (entry_of deferredModule) st3 in
        checkDeferredModules_from fuel i v st4
      else checkDeferredModules_from fuel (S i) result st
  end.
Proof. reflexivity. Qed.

Arguments checkDeferredModules_from : simpl never.

(** The scan, from any index. *)
Lemma checkDeferredModules_from_post fuel : forall pre rest result st,
  chunkQueue st = pre ++ rest ->
  checkDeferredModules_from fuel (length pre) result st <> OutOfFuel ->
  scan_post (installedChunks st) (entry_runs st) pre rest
    (checkDeferredModules_from fuel (length pre) result st).
Proof.
  induction fuel as [|fuel IH]; intros pre rest result st Hq Hd;
    [exfalso; apply Hd; reflexivity|].
  rewrite checkDeferredModules_from_unfold in Hd |- *. rewrite Hq in Hd |- *.
  cbv zeta in Hd |- *.
  destruct rest as [|e rest].
  - rewrite lookup_ge_None_2 by (rewrite app_nil_r; lia). simpl.
    rewrite Hq, !app_nil_r. repeat split.
  - rewrite list_lookup_middle in Hd |- * by reflexivity.
    destruct (fulfilled (installedChunks st) e) eqn:Hf.
    + apply fulfilled_satisfied in Hf.
      set (st3 := set_entry_runs _ _) in Hd |- *.
      assert (Hq3 : chunkQueue st3 = pre ++ rest)
        by (simpl; rewrite Hq; apply delete_middle).
      pose proof (require_run fuel (entry_of e) st3) as Hr.
      destruct (__webpack_require__ fuel (entry_of e) st3) as [v st4|x st4|] eqn:Ereq;
        try rewrite Ereq in Hd; cbn [bind] in Hd |- *.
      * specialize (Hr st4 eq_refl).
        assert (Hq4 : chunkQueue st4 = pre ++ rest)
          by (rewrite (rr_chunkQueue _ _ Hr); exact Hq3).
        specialize (IH pre rest v st4 Hq4 Hd).
        rewrite (rr_installedChunks _ _ Hr), (rr_entry_runs _ _ Hr) in IH.
        simpl in IH.
        destruct (checkDeferredModules_from fuel (length pre) v st4) as [w st'|y st'|];
          simpl in IH |- *.
        -- destruct IH as (E1 & E2 & E3). split; [|split; [|exact E3]].
           ++ rewrite E1, filter_cons_False by tauto. reflexivity.
           ++ rewrite E2, filter_cons_True by exact Hf. simpl.
              rewrite <- app_assoc. reflexivity.
        -- destruct IH as (done & e0 & rest' & E0 & Hs & E1 & E2 & E3).
           exists (e :: done), e0, rest'. split; [rewrite E0; reflexivity|].
           split; [exact Hs|]. split; [|split; [|exact E3]].
           ++ rewrite E1, filter_cons_False by tauto. reflexivity.
           ++ rewrite E2, filter_cons_True by exact Hf. simpl.
              rewrite <- app_assoc. reflexivity.
        -- exact IH.
      * specialize (Hr st4 eq_refl). simpl.
        exists [], e, rest. split; [reflexivity|]. split; [exact Hf|].
        rewrite (rr_chunkQueue _ _ Hr), (rr_entry_runs _ _ Hr),
          (rr_installedChunks _ _ Hr), Hq3. simpl. repeat split.
      * apply Hd. reflexivity.
    + assert (Hn : ~ satisfied (installedChunks st) e).
      { intros Hs. apply fulfilled_satisfied in Hs. congruence. }
      assert (Hq' : chunkQueue st = (pre ++ [e]) ++ rest)
        by (rewrite Hq, <- app_assoc; reflexivity).
      assert (El : S (length pre) = length (pre ++ [e]))
        by (rewrite length_app; simpl; lia).
      rewrite El in Hd |- *.
      specialize (IH (pre ++ [e]) rest result st Hq' Hd).
      destruct (checkDeferredModules_from fuel (length (pre ++ [e])) result st)
        as [w st'|y st'|]; simpl in IH |- *.
      * destruct IH as (E1 & E2 & E3). split; [|split; [|exact E3]].
        -- rewrite E1, filter_cons_True by exact Hn. rewrite <- app_assoc. reflexivity.
        -- rewrite E2, filter_cons_False by exact Hn. reflexivity.
      * destruct IH as (done & e0 & rest' & E0 & Hs & E1 & E2 & E3).
        exists (e :: done), e0, rest'. split; [rewrite E0; reflexivity|].
        split; [exact Hs|]. split; [|split; [|exact E3]].
        -- rewrite E1, filter_cons_True by exact Hn. rewrite <- app_assoc. reflexivity.
        -- rewrite E2, filter_cons_False by exact Hn. reflexivity.
      * exact IH.
Qed.

(** The scan has a result once the fuel covers the entries left to scan
    and the factories that can still run. *)
Lemma checkDeferredModules_from_defined rest : forall fuel pre result st,
  chunkQueue st = pre ++ rest ->
  length rest + uncached st < fuel ->
  checkDeferredModules_from fuel (length pre) result st <> OutOfFuel.
Proof.
  induction rest as [|e rest IH]; intros fuel pre result st Hq Hlt;
    (destruct fuel as [|fuel]; [simpl in Hlt; lia|]);
    rewrite checkDeferredModules_from_unfold, Hq; cbv zeta.
  - rewrite lookup_ge_None_2 by (rewrite app_nil_r; lia). discriminate.
  - rewrite list_lookup_middle by reflexivity. simpl in Hlt.
    destruct (fulfilled (installedChunks st) e).
    + set (st3 := set_entry_runs _ _).
      assert (Hq3 : chunkQueue st3 = pre ++ rest)
        by (simpl; rewrite Hq; apply delete_middle).
      assert (Hu : uncached st3 = uncached st) by reflexivity.
      pose proof (require_run fuel (entry_of e) st3) as Hr.
      pose proof (require_defined fuel (entry_of e) st3) as Hd.
      destruct (__webpack_require__ fuel (entry_of e) st3) as [v st4|x st4|];
        cbn [bind].
      * specialize (Hr st4 eq_refl). apply IH.
        -- rewrite (rr_chunkQueue _ _ Hr). exact Hq3.
        -- apply run_rel_uncached in Hr. lia.
      * discriminate.
      * exfalso. apply Hd; [lia|reflexivity].
    + replace (S (length pre)) with (length (pre ++ [e]))
        by (rewrite length_app; simpl; lia).
      apply IH; [rewrite Hq, <- app_assoc; reflexivity|lia].
Qed.

Lemma require_fuel_agree fuel fuel1 moduleId st :
  uncached st < fuel -> uncached st < fuel1 ->
  __webpack_require__ fuel moduleId st = __webpack_require__ fuel1 moduleId st.
Proof.
  intros H H1.
  rewrite <- (require_fuel_le fuel (Nat.max fuel fuel1) moduleId st)
    by (lia || apply require_defined; exact H).
  rewrite <- (require_fuel_le fuel1 (Nat.max fuel fuel1) moduleId st)
    by (lia || apply require_defined; exact H1).
  reflexivity.
Qed.

(** The loop of lines 73-84, with its index and its [splice], does what
    the specification's words say, entry by entry. *)
Lemma checkDeferredModules_from_entries rest : forall fuel fuel1 pre result st,
  chunkQueue st = pre ++ rest ->
  length rest + uncached st < fuel ->
  uncached st < fuel1 ->
  checkDeferredModules_from fuel (length pre) result st
  = scan_entries fuel1 pre rest result st.
Proof.
  induction rest as [|e rest IH]; intros fuel fuel1 pre result st Hq Hlt Hlt1;
    (destruct fuel as [|fuel]; [simpl in Hlt; lia|]);
    rewrite checkDeferredModules_from_unfold, Hq; cbv zeta; cbn [scan_entries].
  - rewrite lookup_ge_None_2 by (rewrite app_nil_r; lia). reflexivity.
  - rewrite list_lookup_middle by reflexivity. simpl in Hlt.
    destruct (fulfilled (installedChunks st) e) eqn:Hf.
    + rewrite decide_True by (apply fulfilled_satisfied, Hf).
      assert (E : set_chunkQueue (delete (length pre)) st
                  = set_chunkQueue (fun _ => pre ++ rest) st).
      { unfold set_chunkQueue. rewrite Hq, delete_middle. reflexivity. }
      rewrite E.
      set (st3 := set_entry_runs _ _).
      assert (Hu : uncached st3 = uncached st) by reflexivity.
      rewrite (require_fuel_agree fuel fuel1 (entry_of e) st3) by lia.
      pose proof (require_run fuel1 (entry_of e) st3) as Hr.
      destruct (__webpack_require__ fuel1 (entry_of e) st3) as [v st4|x st4|];
        cbn [bind]; [|reflexivity..].
      specialize (Hr st4 eq_refl). pose proof (run_rel_uncached _ _ Hr) as Hle.
      apply IH; [rewrite (rr_chunkQueue _ _ Hr); reflexivity|lia|lia].
    + rewrite decide_False
        by (intros Hs; apply fulfilled_satisfied in Hs; congruence).
      replace (S (length pre)) with (length (pre ++ [e]))
        by (rewrite length_app; simpl; lia).
      apply IH; [rewrite Hq, <- app_assoc; reflexivity|lia|exact Hlt1].
Qed.



(** The entry module of the satisfied entry has really run: the scan
    returns its exports object, which holds what its factory wrote. *)
Example deferred_entry_factory_has_run :
  exists st', checkDeferredModules 2 st_queued56 = Ret (VObj 0) st' /\
    (heap st' !! 0) ≫= (fun o => o !! "started") = Some (VNum 1) /\
    mod_l <$> installedModules st' !! KNum 1 = Some true /\
    chunkQueue st' = [].
Proof. eexists. vm_compute. repeat split. Qed.

(** An entry requiring units 5 and 6: with unit 5 alone complete the
    scan leaves it queued and requests nothing; with both complete the
    scan removes it and requests its module once, and a further scan
    requests nothing more. *)
Example deferred_entry_waits_for_all_units :
  checkDeferredModules 2 st_queued5 = Ret VUndef st_queued5 /\
  chunkQueue (state_after (checkDeferredModules 2 st_queued56)) = [] /\
  entry_runs (state_after (checkDeferredModules 2 st_queued56)) = [KNum 1] /\
  factory_calls (state_after (checkDeferredModules 2 st_queued56)) = [KNum 1] /\
  entry_runs (state_after (checkDeferredModules 2
                (state_after (checkDeferredModules 2 st_queued56)))) = [KNum 1].
Proof. vm_compute. repeat split. Qed.

(** Line 122: the scan at start-up finds nothing queued. *)
Example boot_scan fuel : checkDeferredModules (S fuel) init = Ret VUndef init.
Proof. reflexivity. Qed.

Lemma filter_all {A : Type} (P : A -> Prop) `{forall x, Decision (P x)} (xs : list A) :
  Forall P xs -> filter P xs = xs.
Proof.
  induction 1 as [|x xs Hx _ IH]; [reflexivity|].
  rewrite filter_cons_True by exact Hx. rewrite IH. reflexivity.
Qed.

Lemma drain_unfold fuel st :
  drain (S fuel) st =
  match chunkQueue st with
  | [] => Ret tt st
  | _ :: _ => let* (_v, st1) := checkDeferredModules fuel st in drain fuel st1
  end.
Proof. reflexivity. Qed.

Arguments drain : simpl never.

(** The loop of lines 115-117 never ends while the queue holds nothing
    but entries that wait for a unit: a scan removes none of them, and
    the loop asks only whether the queue is empty. *)
Lemma drain_diverges fuel : forall st,
  chunkQueue st <> [] ->
  Forall (fun e => ~ satisfied (installedChunks st) e) (chunkQueue st) ->
  drain fuel st = OutOfFuel.
Proof.
  induction fuel as [|fuel IH]; intros st Hne Hall; [reflexivity|].
  rewrite drain_unfold. destruct (chunkQueue st) as [|e q] eqn:Hq; [congruence|].
  pose proof (checkDeferredModules_from_post fuel [] (chunkQueue st) VUndef st eq_refl)
    as Hpost.
  change (length (@nil (list key))) with 0 in Hpost.
  fold (checkDeferredModules fuel st) in Hpost.
  destruct (checkDeferredModules fuel st) as [w st1|x st1|]; cbn [bind];
    [|exfalso|reflexivity].
  - assert (Hdef : @Ret val w st1 <> OutOfFuel) by discriminate.
    specialize (Hpost Hdef). simpl in Hpost.
    destruct Hpost as (E1 & _ & E3).
    rewrite Hq in E1. rewrite filter_all in E1 by exact Hall. simpl in E1.
    apply IH.
    + rewrite E1. discriminate.
    + rewrite E1, E3. exact Hall.
  - assert (Hdef : @Throw val x st1 <> OutOfFuel) by discriminate.
    specialize (Hpost Hdef). simpl in Hpost.
    destruct Hpost as (done & e0 & rest' & E0 & Hs & _).
    rewrite Hq in E0. rewrite E0 in Hall.
    apply Forall_app in Hall. destruct Hall as [_ Hall].
    inversion Hall; subst. contradiction.
Qed.

(** With an empty queue the loop does nothing. *)
Lemma drain_empty fuel st : chunkQueue st = [] -> drain (S fuel) st = Ret tt st.
Proof. intros H. rewrite drain_unfold, H. reflexivity. Qed.

(** With the entry [[1, 5, 6]] queued and unit 6 not complete, a state
    that no call reaches, a delivery of unit 5 alone would have no
    result, whatever the fuel: the loop asks whether the queue is
    empty, not whether the last scan removed anything. *)
Lemma delivery_with_waiting_entry_diverges (fuel : nat) :
  jsonpArray_push fuel delivery5_only st_queued = OutOfFuel.
Proof.
  unfold jsonpArray_push. rewrite drain_diverges; [reflexivity| |].
  - vm_compute. discriminate.
  - refine (bool_decide_unpack _ _). vm_compute. exact I.
Qed.

(** ** Properties of the delivery callback *)

Lemma foldl_mark_chunk_frame ids : forall st,
  chunkQueue (foldl mark_chunk st ids) = chunkQueue st /\
  modules (foldl mark_chunk st ids) = modules st /\
  installedModules (foldl mark_chunk st ids) = installedModules st /\
  chunkStatus (foldl mark_chunk st ids) = chunkStatus st.
Proof.
  induction ids as [|c ids IH]; intros st; simpl; [repeat split|].
  destruct (IH (mark_chunk st c)) as (E1 & E2 & E3 & E4).
  rewrite E1, E2, E3, E4. unfold mark_chunk.
  destruct (installedChunks st !! c) as [[| |p]|]; simpl; repeat split;
    unfold resolve, settle; destruct (promises st !! p) as [[| |]|]; reflexivity.
Qed.

Lemma foldl_add_module_frame mods : forall st,
  chunkQueue (foldl add_module st mods) = chunkQueue st /\
  installedModules (foldl add_module st mods) = installedModules st /\
  installedChunks (foldl add_module st mods) = installedChunks st /\
  chunkStatus (foldl add_module st mods) = chunkStatus st /\
  promises (foldl add_module st mods) = promises st.
Proof.
  induction mods as [|m mods IH]; intros st; simpl; [repeat split|].
  destruct (IH (add_module st m)) as (E1 & E2 & E3 & E4 & E5).
  rewrite E1, E2, E3, E4, E5. repeat split.
Qed.

(** Line 110 is an assignment: of two factories delivered under one
    key, the one written last is the one registered. *)
Lemma add_module_last_wins mods k f st :
  modules (foldl add_module st (mods ++ [(k, f)])) !! k = Some f.
Proof. rewrite foldl_app. simpl. apply lookup_insert_eq. Qed.

Lemma delivered_chunkQueue chunkData st :
  chunkQueue (delivered chunkData st) = chunkQueue st.
Proof.
  unfold delivered. simpl.
  destruct (foldl_add_module_frame (moreModules chunkData)
              (foldl mark_chunk st (chunkIds chunkData))) as (E & _).
  destruct (foldl_mark_chunk_frame (chunkIds chunkData) st) as (E' & _).
  congruence.
Qed.

(** With nothing queued, a delivery is a request for
    [executeModules] in the state the delivery has prepared; its result
    is the result of that request. *)
Lemma jsonpArray_push_empty_queue fuel chunkData st :
  chunkQueue st = [] ->
  jsonpArray_push (S fuel) chunkData st =
  __webpack_require__ (S fuel) (executeModules chunkData) (delivered chunkData st).
Proof.
  intros Hq. unfold jsonpArray_push. fold (delivered chunkData st).
  rewrite drain_empty by (rewrite delivered_chunkQueue; exact Hq). reflexivity.
Qed.

(** C9 at a failing input: a delivery that names no entry module still
    requests the module [undefined].  In the initial state that request
    throws a [TypeError] out of the delivery and leaves a record cached
    under [undefined]; when the delivery carries a factory under the key
    [undefined], that factory is run as the entry module. *)
Theorem delivery_without_entry_requires_undefined (fuel : nat) :
  jsonpArray_push (S fuel) delivery_no_entry init = Throw TypeError st_no_entry /\
  installedModules st_no_entry !! KUndefined
    = Some {| mod_i := KUndefined; mod_l := false; mod_exports := VObj 0 |} /\
  installedChunks st_no_entry !! KNum 1 = Some Zero /\
  jsonpArray_push (S fuel) delivery_no_entry' init = Ret (VObj 0) st_no_entry' /\
  factory_calls st_no_entry' = [KUndefined].
Proof.
  rewrite !jsonpArray_push_empty_queue by reflexivity.
  rewrite !(require_fuel_le 1 (S fuel)) by (lia || (vm_compute; discriminate)).
  vm_compute. repeat split.
Qed.

(** ** What no reachable state contains *)

Lemma queue_unused_mark_chunk st c :
  queue_unused st ->
  queue_unused (mark_chunk st c) /\
  promises (mark_chunk st c) = promises st /\
  chunkStatus (mark_chunk st c) = chunkStatus st.
Proof.
  intros [Hq Hz]. unfold mark_chunk.
  assert (E : match installedChunks st !! c with
              | Some (Waiter p) => resolve p st
              | _ => st
              end = st).
  { destruct (installedChunks st !! c) as [s|] eqn:Hc; [|reflexivity].
    rewrite (Hz c s Hc). reflexivity. }
  rewrite E. simpl. split; [|split; reflexivity].
  split; [exact Hq|]. simpl. intros c' s Hl.
  destruct (decide (c = c')) as [->|Hne].
  - rewrite lookup_insert_eq in Hl. congruence.
  - rewrite lookup_insert_ne in Hl by exact Hne. eapply Hz, Hl.
Qed.

Lemma queue_unused_delivered chunkData st :
  queue_unused st ->
  queue_unused (delivered chunkData st) /\
  promises (delivered chunkData st) = promises st /\
  chunkStatus (delivered chunkData st) = chunkStatus st.
Proof.
  intros Hinv. unfold delivered.
  assert (Hm : forall ids st0, queue_unused st0 ->
            queue_unused (foldl mark_chunk st0 ids) /\
            promises (foldl mark_chunk st0 ids) = promises st0 /\
            chunkStatus (foldl mark_chunk st0 ids) = chunkStatus st0).
  { induction ids as [|c ids IH]; intros st0 H0; simpl; [repeat split; apply H0|].
    destruct (queue_unused_mark_chunk st0 c H0) as (H1 & E1 & E2).
    destruct (IH _ H1) as (H2 & E3 & E4). repeat split; try apply H2; congruence. }
  destruct (Hm (chunkIds chunkData) st Hinv) as ([Hq Hz] & Ep & Ec).
  destruct (foldl_add_module_frame (moreModules chunkData)
              (foldl mark_chunk st (chunkIds chunkData))) as (E1 & _ & E3 & E4 & E5).
  simpl. unfold queue_unused. simpl. rewrite E1, E3, E4, E5.
  repeat split; assumption.
Qed.

Lemma queue_unused_run st st' : run_rel st st' -> queue_unused st -> queue_unused st'.
Proof.
  intros Hr [Hq Hz]. split.
  - rewrite (rr_chunkQueue _ _ Hr). exact Hq.
  - rewrite (rr_installedChunks _ _ Hr). exact Hz.
Qed.

(** In a state with nothing queued and no waiter in [installedChunks],
    a delivery leaves every promise and every slot of [chunkStatus] as
    it was. *)
Lemma jsonpArray_push_settles_nothing fuel chunkData st st' :
  queue_unused st ->
  outcome_state (jsonpArray_push fuel chunkData st) = Some st' ->
  queue_unused st' /\ promises st' = promises st /\ chunkStatus st' = chunkStatus st.
Proof.
  intros Hinv. destruct fuel as [|fuel]; [discriminate|].
  rewrite jsonpArray_push_empty_queue by apply Hinv.
  intros H. apply require_run in H.
  destruct (queue_unused_delivered chunkData st Hinv) as (Hd & Ep & Ec).
  split; [eapply queue_unused_run; eassumption|].
  rewrite (rr_promises _ _ H), (rr_chunkStatus _ _ H). split; assumption.
Qed.

Lemma queue_unused_loadChunk chunkId st :
  queue_unused st -> queue_unused (snd (loadChunk chunkId st)).
Proof.
  intros Hinv. unfold loadChunk.
  destruct (slot_of (chunkStatus st) chunkId); simpl; exact Hinv.
Qed.

Lemma queue_unused_onScriptComplete k ev st :
  queue_unused st -> queue_unused (onScriptComplete k ev st).
Proof.
  intros Hinv. unfold onScriptComplete.
  destruct (scripts st !! k) as [sc|]; [|exact Hinv]. simpl.
  destruct (slot_of (chunkStatus st) (sc_chunkId sc)) as [| |p]; simpl;
    try exact Hinv.
  unfold reject, settle. simpl.
  destruct (promises st !! p) as [[| |]|]; exact Hinv.
Qed.

Lemma reachable_queue_unused st : reachable st -> queue_unused st.
Proof.
  induction 1 as [|st o st' _ IH Hop].
  - split; [reflexivity|]. intros c s. simpl. intros H.
    apply lookup_singleton_Some in H. destruct H as [_ <-]. reflexivity.
  - destruct o as [c|k type|k|fuel cd|fuel m]; simpl in Hop.
    + injection Hop as <-. apply queue_unused_loadChunk, IH.
    + injection Hop as <-. apply queue_unused_onScriptComplete, IH.
    + injection Hop as <-. unfold timeout_fires.
      destruct (scripts st !! k) as [sc|]; [|exact IH].
      destruct (sc_timer sc); [|exact IH].
      apply queue_unused_onScriptComplete, IH.
    + eapply jsonpArray_push_settles_nothing; eassumption.
    + eapply queue_unused_run; [eapply require_run; eassumption|exact IH].
Qed.





(** ** What every reachable state of the loader satisfies *)

Lemma slot_of_Waiter (table : gmap key slot) c p :
  slot_of table c = Waiter p <-> table !! c = Some (Waiter p).
Proof.
  unfold slot_of. destruct (table !! c) as [s|]; simpl; split; congruence.
Qed.

Lemma loader_inv_loadChunk chunkId st :
  loader_inv st -> loader_inv (snd (loadChunk chunkId st)).
Proof.
  intros (Hp & Hi & Hs). unfold loadChunk.
  destruct (slot_of (chunkStatus st) chunkId) eqn:Hslot; unfold loader_inv; simpl;
    [|split; [|split]; assumption..].
  assert (Hfresh : forall c, chunkStatus st !! c <> Some (Waiter (length (promises st)))).
  { intros c Hc. apply Hp in Hc. apply lookup_lt_Some in Hc. lia. }
  split; [|split].
  - intros c p Hc. destruct (decide (c = chunkId)) as [->|Hne].
    + rewrite lookup_insert_eq in Hc. injection Hc as <-.
      rewrite lookup_app_r by lia. rewrite Nat.sub_diag. reflexivity.
    + rewrite lookup_insert_ne in Hc by congruence.
      apply lookup_app_l_Some. eapply Hp, Hc.
  - intros c c' p Hc Hc'.
    destruct (decide (c = chunkId)) as [->|Hne];
      destruct (decide (c' = chunkId)) as [->|Hne'].
    + reflexivity.
    + rewrite lookup_insert_eq in Hc. injection Hc as <-.
      rewrite lookup_insert_ne in Hc' by congruence. exfalso. eapply Hfresh, Hc'.
    + rewrite lookup_insert_eq in Hc'. injection Hc' as <-.
      rewrite lookup_insert_ne in Hc by congruence. exfalso. eapply Hfresh, Hc.
    + rewrite lookup_insert_ne in Hc, Hc' by congruence. eapply Hi; eassumption.
  - intros k sc Hk. apply lookup_app_Some in Hk.
    destruct Hk as [Hk|[_ Hk]]; [eapply Hs, Hk|].
    destruct (k - length (scripts st)); simpl in Hk; [|discriminate].
    injection Hk as <-. reflexivity.
Qed.

Lemma loader_inv_scripts (f : script -> script) k st :
  (forall sc, sc_src (f sc) = sc_src sc /\ sc_chunkId (f sc) = sc_chunkId sc) ->
  (forall j sc, scripts st !! j = Some sc -> sc_src sc = locator (sc_chunkId sc)) ->
  forall j sc, alter f k (scripts st) !! j = Some sc -> sc_src sc = locator (sc_chunkId sc).
Proof.
  intros Hf Hs j sc Hj. destruct (decide (k = j)) as [->|Hne].
  - rewrite list_lookup_alter_eq in Hj.
    destruct (scripts st !! j) as [sc0|] eqn:E; [|discriminate].
    injection Hj as <-. destruct (Hf sc0) as [-> ->]. eapply Hs, E.
  - rewrite list_lookup_alter_ne in Hj by exact Hne. eapply Hs, Hj.
Qed.

Lemma loader_inv_onScriptComplete k ev st :
  loader_inv st -> loader_inv (onScriptComplete k ev st).
Proof.
  intros (Hp & Hi & Hs). unfold onScriptComplete.
  destruct (scripts st !! k) as [sc|] eqn:Hk; [|split; [|split]; assumption].
  simpl.
  assert (Hs1 : forall j sc', alter (set_timer false) k (scripts st) !! j = Some sc' ->
                  sc_src sc' = locator (sc_chunkId sc')).
  { apply loader_inv_scripts; [intros; split; reflexivity|exact Hs]. }
  destruct (slot_of (chunkStatus st) (sc_chunkId sc)) as [| |p] eqn:Hslot;
    unfold loader_inv; simpl.
  - split; [|split]; [| |exact Hs1].
    + intros c p Hc. destruct (decide (sc_chunkId sc = c)) as [<-|Hne].
      * rewrite lookup_insert_eq in Hc. discriminate.
      * rewrite lookup_insert_ne in Hc by exact Hne. eapply Hp, Hc.
    + intros c c' p Hc Hc'.
      destruct (decide (sc_chunkId sc = c)) as [<-|Hne];
        [rewrite lookup_insert_eq in Hc; discriminate|].
      destruct (decide (sc_chunkId sc = c')) as [<-|Hne'];
        [rewrite lookup_insert_eq in Hc'; discriminate|].
      rewrite lookup_insert_ne in Hc, Hc' by assumption. eapply Hi; eassumption.
  - split; [|split]; assumption.
  - apply slot_of_Waiter in Hslot. pose proof (Hp _ _ Hslot) as Hpend.
    unfold reject, settle. simpl. rewrite Hpend. simpl.
    split; [|split].
    + intros c p' Hc. destruct (decide (sc_chunkId sc = c)) as [<-|Hne].
      * rewrite lookup_insert_eq in Hc. discriminate.
      * rewrite lookup_insert_ne in Hc by exact Hne.
        rewrite list_lookup_insert_ne; [eapply Hp, Hc|].
        intros ->. apply Hne. eapply Hi; eassumption.
    + intros c c' p' Hc Hc'.
      destruct (decide (sc_chunkId sc = c)) as [<-|Hne];
        [rewrite lookup_insert_eq in Hc; discriminate|].
      destruct (decide (sc_chunkId sc = c')) as [<-|Hne'];
        [rewrite lookup_insert_eq in Hc'; discriminate|].
      rewrite lookup_insert_ne in Hc, Hc' by assumption. eapply Hi; eassumption.
    + intros j sc' Hj.
      change (alter (set_error ?e) k (alter (set_timer false) k (scripts st)))
        with (scripts (set_scripts (alter (set_error e) k) (clearTimeout k st))) in Hj.
      revert j sc' Hj. apply loader_inv_scripts; [intros; split; reflexivity|exact Hs1].
Qed.

Lemma loader_inv_frame st st' :
  chunkStatus st' = chunkStatus st -> promises st' = promises st ->
  scripts st' = scripts st -> loader_inv st -> loader_inv st'.
Proof. intros Ec Ep Es. unfold loader_inv. rewrite Ec, Ep, Es. tauto. Qed.

Lemma delivered_scripts chunkData st : scripts (delivered chunkData st) = scripts st.
Proof.
  unfold delivered. simpl.
  assert (Ha : forall mods st0, scripts (foldl add_module st0 mods) = scripts st0).
  { induction mods as [|m mods IH]; intros st0; simpl; [reflexivity|].
    rewrite IH. reflexivity. }
  assert (Hm : forall ids st0, scripts (foldl mark_chunk st0 ids) = scripts st0).
  { induction ids as [|c ids IH]; intros st0; simpl; [reflexivity|].
    rewrite IH. unfold mark_chunk.
    destruct (installedChunks st0 !! c) as [[| |p]|]; simpl; try reflexivity.
    unfold resolve, settle. destruct (promises st0 !! p) as [[| |]|]; reflexivity. }
  rewrite Ha, Hm. reflexivity.
Qed.

(** Both invariants hold in every reachable state. *)
Lemma reachable_loader_inv st : reachable st -> loader_inv st.
Proof.
  induction 1 as [|st o st' Hreach IH Hop].
  - split; [|split].
    + intros c p H. simpl in H. apply lookup_singleton_Some in H.
      destruct H as [_ H]. discriminate.
    + intros c c' p H. simpl in H. apply lookup_singleton_Some in H.
      destruct H as [_ H]. discriminate.
    + intros k sc H. simpl in H. destruct k; discriminate.
  - destruct o as [c|k type|k|fuel cd|fuel m]; simpl in Hop.
    + injection Hop as <-. apply loader_inv_loadChunk, IH.
    + injection Hop as <-. apply loader_inv_onScriptComplete, IH.
    + injection Hop as <-. unfold timeout_fires.
      destruct (scripts st !! k) as [sc|]; [|exact IH].
      destruct (sc_timer sc); [|exact IH].
      apply loader_inv_onScriptComplete, IH.
    + pose proof (reachable_queue_unused st Hreach) as Hq.
      destruct (jsonpArray_push_settles_nothing fuel cd st st' Hq Hop) as (_ & Ep & Ec).
      refine (loader_inv_frame st st' Ec Ep _ IH).
      destruct fuel as [|fuel]; [discriminate|].
      rewrite jsonpArray_push_empty_queue in Hop by apply Hq.
      apply require_run in Hop. rewrite (rr_scripts _ _ Hop). apply delivered_scripts.
    + apply require_run in Hop.
      exact (loader_inv_frame st st' (rr_chunkStatus _ _ Hop) (rr_promises _ _ Hop)
               (rr_scripts _ _ Hop) IH).
Qed.

(** In a reachable state the hypotheses of the two loader theorems hold
    for every pending slot: its promise is pending. *)
Lemma reachable_waiter_pending st chunkId p :
  reachable st -> slot_of (chunkStatus st) chunkId = Waiter p ->
  promises st !! p = Some Pending.
Proof.
  intros Hr Hs. apply reachable_loader_inv in Hr. destruct Hr as (Hp & _).
  eapply Hp. apply slot_of_Waiter. exact Hs.
Qed.

(** * Further properties of the code *)

(** ** What scans and deliveries leave alone *)

Lemma scan_rel_refl st : scan_rel st st.
Proof. constructor; try reflexivity. intros id H; exact H. Qed.

Lemma scan_rel_trans st1 st2 st3 : scan_rel st1 st2 -> scan_rel st2 st3 -> scan_rel st1 st3.
Proof.
  intros [] []. constructor; try congruence. intros id H. auto.
Qed.

Lemma scan_rel_run st st' : run_rel st st' -> scan_rel st st'.
Proof.
  intros Hr. constructor; try apply Hr.
  intros id [m Hm]. destruct (rr_cache _ _ Hr id m Hm) as (m' & Hm' & _). eauto.
Qed.

Lemma checkDeferredModules_from_rel fuel : forall i result st st',
  outcome_state (checkDeferredModules_from fuel i result st) = Some st' ->
  scan_rel st st'.
Proof.
  induction fuel as [|fuel IH]; intros i result st st'; [discriminate|].
  rewrite checkDeferredModules_from_unfold. cbv zeta.
  destruct (chunkQueue st !! i) as [e|]; [|intros [= <-]; apply scan_rel_refl].
  destruct (fulfilled (installedChunks st) e); [|apply IH].
  set (st3 := set_entry_runs _ _).
  assert (H3 : scan_rel st st3) by (constructor; try reflexivity; intros id H; exact H).
  pose proof (require_run fuel (entry_of e) st3) as Hr.
  destruct (__webpack_require__ fuel (entry_of e) st3) as [v st4|x st4|]; cbn [bind].
  - intros H. eapply scan_rel_trans; [exact H3|].
    eapply scan_rel_trans; [apply scan_rel_run, Hr; reflexivity|].
    eapply IH, H.
  - intros [= <-]. eapply scan_rel_trans; [exact H3|].
    apply scan_rel_run, Hr. reflexivity.
  - discriminate.
Qed.

Lemma drain_rel fuel : forall st st',
  outcome_state (drain fuel st) = Some st' -> scan_rel st st'.
Proof.
  induction fuel as [|fuel IH]; intros st st'; [discriminate|].
  rewrite drain_unfold.
  destruct (chunkQueue st); [intros [= <-]; apply scan_rel_refl|].
  pose proof (checkDeferredModules_from_rel fuel 0 VUndef st) as Hs.
  fold (checkDeferredModules fuel st) in Hs.
  destruct (checkDeferredModules fuel st) as [v st1|x st1|]; cbn [bind].
  - intros H. eapply scan_rel_trans; [apply Hs; reflexivity|]. apply IH, H.
  - intros [= <-]. apply Hs. reflexivity.
  - discriminate.
Qed.

(** Whatever a delivery returns or throws, the state it leaves is the
    prepared state of lines 100-114 up to what scans and requests may
    change. *)
Lemma jsonpArray_push_rel fuel chunkData st st' :
  outcome_state (jsonpArray_push fuel chunkData st) = Some st' ->
  scan_rel (delivered chunkData st) st'.
Proof.
  unfold jsonpArray_push. fold (delivered chunkData st).
  pose proof (drain_rel fuel (delivered chunkData st)) as Hd.
  destruct (drain fuel (delivered chunkData st)) as [u st1|x st1|]; cbn [bind].
  - intros H. eapply scan_rel_trans; [apply Hd; reflexivity|].
    apply scan_rel_run. eapply require_run, H.
  - intros [= <-]. apply Hd. reflexivity.
  - discriminate.
Qed.

Lemma delivered_modules chunkData st :
  modules (delivered chunkData st)
  = list_to_map (rev (moreModules chunkData)) ∪ modules st.
Proof.
  unfold delivered. simpl.
  destruct (foldl_mark_chunk_frame (chunkIds chunkData) st) as (_ & Em & _).
  rewrite <- Em. generalize (foldl mark_chunk st (chunkIds chunkData)).
  induction (moreModules chunkData) as [|[k f] mods IH]; intros st0; simpl.
  - rewrite (left_id_L ∅ (∪)). reflexivity.
  - rewrite IH. simpl. rewrite list_to_map_app. simpl.
    rewrite <- (assoc_L (∪)). f_equal.
    rewrite insert_empty. rewrite <- insert_union_singleton_l. reflexivity.
Qed.

Lemma foldl_mark_chunk_installedChunks ids : forall st c,
  installedChunks (foldl mark_chunk st ids) !! c
  = if decide (c ∈ ids) then Some Zero else installedChunks st !! c.
Proof.
  induction ids as [|c0 ids IH]; intros st c; cbn [foldl].
  - destruct (decide (c ∈ [])) as [Hin|_]; [inversion Hin|reflexivity].
  - rewrite IH.
    assert (E : installedChunks (mark_chunk st c0) = <[c0 := Zero]> (installedChunks st)).
    { unfold mark_chunk. destruct (installedChunks st !! c0) as [[| |p]|]; simpl;
        try reflexivity.
      unfold resolve, settle. destruct (promises st !! p) as [[| |]|]; reflexivity. }
    rewrite E.
    destruct (decide (c ∈ ids)) as [Hin|Hnin];
      destruct (decide (c ∈ c0 :: ids)) as [Hin'|Hnin']; try reflexivity.
    + exfalso. apply Hnin'. right. exact Hin.
    + apply elem_of_cons in Hin'. destruct Hin' as [->|Hin']; [|contradiction].
      apply lookup_insert_eq.
    + apply lookup_insert_ne. intros ->. apply Hnin'. left.
Qed.

Lemma delivered_installedChunks chunkData st c :
  installedChunks (delivered chunkData st) !! c
  = if decide (c ∈ chunkIds chunkData) then Some Zero else installedChunks st !! c.
Proof.
  unfold delivered. simpl.
  destruct (foldl_add_module_frame (moreModules chunkData)
              (foldl mark_chunk st (chunkIds chunkData))) as (_ & _ & E & _).
  rewrite E. apply foldl_mark_chunk_installedChunks.
Qed.

(** X1: after a delivery, whatever it returns or throws, the table of
    factories is the old table overwritten by the delivered factories,
    the one listed last under a key winning. *)
Theorem delivery_merges_factories (fuel : nat) (chunkData : chunk_data) (st st' : state) :
  outcome_state (jsonpArray_push fuel chunkData st) = Some st' ->
  modules st' = list_to_map (rev (moreModules chunkData)) ∪ modules st.
Proof.
  intros H. apply jsonpArray_push_rel in H.
  rewrite (sr_modules _ _ H). apply delivered_modules.
Qed.

Lemma delivery_merges_factories_witness :
  modules st_delivered56 = list_to_map (rev (moreModules delivery56)) ∪ modules st_unit8.
Proof.
  apply (delivery_merges_factories 1 delivery56 st_unit8 st_delivered56).
  vm_compute. reflexivity.
Defined.

(** X2: after a delivery, whatever it returns or throws, every unit it
    names is complete in [installedChunks] and every other unit is as
    it was; in particular a complete unit stays complete. *)
Theorem delivery_marks_units (fuel : nat) (chunkData : chunk_data) (st st' : state) :
  outcome_state (jsonpArray_push fuel chunkData st) = Some st' ->
  (forall c, c ∈ chunkIds chunkData -> complete (installedChunks st') c) /\
  (forall c, c ∉ chunkIds chunkData ->
     installedChunks st' !! c = installedChunks st !! c) /\
  (forall c, complete (installedChunks st) c -> complete (installedChunks st') c).
Proof.
  intros H. apply jsonpArray_push_rel in H.
  unfold complete. rewrite (sr_installedChunks _ _ H).
  split; [|split]; intros c Hc; rewrite delivered_installedChunks.
  - rewrite decide_True by exact Hc. reflexivity.
  - rewrite decide_False by exact Hc. reflexivity.
  - destruct (decide (c ∈ chunkIds chunkData)); [reflexivity|exact Hc].
Qed.

Lemma delivery_marks_units_witness :
  (forall c, c ∈ chunkIds delivery56 -> complete (installedChunks st_delivered56) c) /\
  (forall c, c ∉ chunkIds delivery56 ->
     installedChunks st_delivered56 !! c = installedChunks st_unit8 !! c) /\
  (forall c, complete (installedChunks st_unit8) c ->
     complete (installedChunks st_delivered56) c).
Proof.
  apply (delivery_marks_units 1 delivery56 st_unit8 st_delivered56).
  vm_compute. reflexivity.
Defined.

(** X3: every delivery that returns or throws has been handed to the
    original [push] of the array exactly once: the array grows by that
    one triple, at its end. *)
Theorem delivery_forwarded_once (fuel : nat) (chunkData : chunk_data) (st st' : state) :
  outcome_state (jsonpArray_push fuel chunkData st) = Some st' ->
  jsonpArray st' = jsonpArray st ++ [chunkData].
Proof.
  intros H. apply jsonpArray_push_rel in H. rewrite (sr_jsonpArray _ _ H).
  unfold delivered. simpl.
  assert (Ha : forall mods st0, jsonpArray (foldl add_module st0 mods) = jsonpArray st0).
  { induction mods as [|m mods IH]; intros st0; simpl; [reflexivity|].
    rewrite IH. reflexivity. }
  assert (Hm : forall ids st0, jsonpArray (foldl mark_chunk st0 ids) = jsonpArray st0).
  { induction ids as [|c ids IH]; intros st0; simpl; [reflexivity|].
    rewrite IH. unfold mark_chunk.
    destruct (installedChunks st0 !! c) as [[| |p]|]; simpl; try reflexivity.
    unfold resolve, settle. destruct (promises st0 !! p) as [[| |]|]; reflexivity. }
  rewrite Ha, Hm. reflexivity.
Qed.

Lemma delivery_forwarded_once_witness :
  jsonpArray st_no_entry = jsonpArray init ++ [delivery_no_entry].
Proof.
  apply (delivery_forwarded_once 1 delivery_no_entry init st_no_entry).
  vm_compute. reflexivity.
Defined.

(** ** Promises, timers and slots of the loader *)

Lemma settle_keeps q o p s st :
  promises st !! p = Some s -> s <> Pending ->
  promises (settle q o st) !! p = Some s.
Proof.
  intros Hp Hs. unfold settle.
  destruct (promises st !! q) as [[| |]|] eqn:Hq; try exact Hp.
  simpl. rewrite list_lookup_insert_ne; [exact Hp|]. intros ->. congruence.
Qed.

Lemma mark_chunk_keeps c p s st :
  promises st !! p = Some s -> s <> Pending ->
  promises (mark_chunk st c) !! p = Some s.
Proof.
  intros Hp Hs. unfold mark_chunk.
  destruct (installedChunks st !! c) as [[| |q]|]; simpl; try exact Hp.
  apply settle_keeps; assumption.
Qed.

Lemma delivered_keeps chunkData p s st :
  promises st !! p = Some s -> s <> Pending ->
  promises (delivered chunkData st) !! p = Some s.
Proof.
  intros Hp Hs. unfold delivered. simpl.
  destruct (foldl_add_module_frame (moreModules chunkData)
              (foldl mark_chunk st (chunkIds chunkData))) as (_ & _ & _ & _ & E).
  rewrite E. clear E. revert st Hp.
  induction (chunkIds chunkData) as [|c ids IH]; intros st Hp; simpl; [exact Hp|].
  apply IH. apply mark_chunk_keeps; assumption.
Qed.

Lemma onScriptComplete_keeps k ev p s st :
  promises st !! p = Some s -> s <> Pending ->
  promises (onScriptComplete k ev st) !! p = Some s.
Proof.
  intros Hp Hs. unfold onScriptComplete.
  destruct (scripts st !! k) as [sc|]; [|exact Hp]. simpl.
  destruct (slot_of (chunkStatus st) (sc_chunkId sc)) as [| |q]; simpl; try exact Hp.
  apply (settle_keeps q (Rejected k) p s
           (set_scripts (alter (set_error _) k) (clearTimeout k st))); assumption.
Qed.

Lemma timeout_fires_unfold k st :
  timeout_fires k st = onScriptComplete k {| ev_type := "timeout"; ev_target := Some k |} st
  \/ timeout_fires k st = st.
Proof.
  unfold timeout_fires. destruct (scripts st !! k) as [sc|]; [|right; reflexivity].
  destruct (sc_timer sc); [left|right]; reflexivity.
Qed.

(** X4: a promise that is fulfilled or rejected stays as it is under
    every call that reaches the closure: no load, event, timer,
    delivery or request settles it a second time. *)
Theorem settled_promise_is_final (o : op) (st st' : state) (p : nat) (s : promise_state) :
  apply_op o st = Some st' ->
  promises st !! p = Some s -> s <> Pending ->
  promises st' !! p = Some s.
Proof.
  intros Hop Hp Hs. destruct o as [c|k type|k|fuel cd|fuel m]; simpl in Hop.
  - injection Hop as <-. unfold loadChunk.
    destruct (slot_of (chunkStatus st) c); simpl; try exact Hp.
    apply lookup_app_l_Some, Hp.
  - injection Hop as <-. apply onScriptComplete_keeps; assumption.
  - injection Hop as <-. destruct (timeout_fires_unfold k st) as [-> | ->];
      [apply onScriptComplete_keeps; assumption|exact Hp].
  - apply jsonpArray_push_rel in Hop. rewrite (sr_promises _ _ Hop).
    apply delivered_keeps; assumption.
  - apply require_run in Hop. rewrite (rr_promises _ _ Hop). exact Hp.
Qed.

Lemma settled_promise_is_final_witness :
  promises (script_event 0 "error" st_timeout5) !! 0 = Some (Rejected 0).
Proof.
  apply (settled_promise_is_final (OpEvent 0 "error") st_timeout5 _ 0 (Rejected 0)).
  - reflexivity.
  - reflexivity.
  - discriminate.
Defined.

Lemma loadChunk_installedChunks c st :
  installedChunks (snd (loadChunk c st)) = installedChunks st.
Proof. unfold loadChunk. destruct (slot_of (chunkStatus st) c); reflexivity. Qed.

Lemma onScriptComplete_installedChunks k ev st :
  installedChunks (onScriptComplete k ev st) = installedChunks st.
Proof.
  unfold onScriptComplete. destruct (scripts st !! k) as [sc|]; [|reflexivity]. simpl.
  destruct (slot_of (chunkStatus st) (sc_chunkId sc)) as [| |q]; simpl; try reflexivity.
  unfold reject, settle. simpl. destruct (promises st !! q) as [[| |]|]; reflexivity.
Qed.

(** X5: a unit that is complete in [installedChunks] stays complete
    under every call that reaches the closure; the loader's failures
    and resets never touch that table. *)
Theorem complete_unit_stays_complete (o : op) (st st' : state) (c : key) :
  apply_op o st = Some st' ->
  complete (installedChunks st) c -> complete (installedChunks st') c.
Proof.
  intros Hop Hc. unfold complete in *.
  destruct o as [c0|k type|k|fuel cd|fuel m]; simpl in Hop.
  - injection Hop as <-. rewrite loadChunk_installedChunks. exact Hc.
  - injection Hop as <-. unfold script_event.
    rewrite onScriptComplete_installedChunks. exact Hc.
  - injection Hop as <-. destruct (timeout_fires_unfold k st) as [-> | ->];
      [rewrite onScriptComplete_installedChunks|]; exact Hc.
  - apply jsonpArray_push_rel in Hop. rewrite (sr_installedChunks _ _ Hop).
    rewrite delivered_installedChunks.
    destruct (decide (c ∈ chunkIds cd)); [reflexivity|exact Hc].
  - apply require_run in Hop. rewrite (rr_installedChunks _ _ Hop). exact Hc.
Qed.

Lemma complete_unit_stays_complete_witness :
  complete (installedChunks (timeout_fires 0 (snd (loadChunk (KNum 8) st_unit8)))) (KNum 8).
Proof.
  apply (complete_unit_stays_complete (OpTimeout 0) (snd (loadChunk (KNum 8) st_unit8))).
  - reflexivity.
  - apply (complete_unit_stays_complete (OpLoad (KNum 8)) st_unit8).
    + reflexivity.
    + reflexivity.
Defined.

(** ** A load that times out, and the signals that come after *)

Lemma onScriptComplete_settled k sc ev st :
  scripts st !! k = Some sc ->
  truthy (slot_of (chunkStatus st) (sc_chunkId sc)) = false ->
  handler_is_noop k ev st.
Proof.
  intros Hk Hs. unfold handler_is_noop, onScriptComplete. rewrite Hk. simpl.
  destruct (slot_of (chunkStatus st) (sc_chunkId sc)) eqn:Hslot; simpl in *;
    [| |discriminate].
  - repeat split. intros c. destruct (decide (c = sc_chunkId sc)) as [->|Hne].
    + rewrite slot_of_insert_eq. symmetry. exact Hslot.
    + apply slot_of_insert_ne. congruence.
  - repeat split.
Qed.

Lemma apply_op_keeps_settled (o : op) (st st' : state) (p : nat) (s : promise_state) :
  apply_op o st = Some st' ->
  promises st !! p = Some s -> s <> Pending ->
  promises st' !! p = Some s.
Proof.
  intros Hop Hp Hs. destruct o as [c|k type|k|fuel cd|fuel m]; simpl in Hop.
  - injection Hop as <-. unfold loadChunk.
    destruct (slot_of (chunkStatus st) c); simpl; try exact Hp.
    apply lookup_app_l_Some, Hp.
  - injection Hop as <-. apply onScriptComplete_keeps; assumption.
  - injection Hop as <-. destruct (timeout_fires_unfold k st) as [-> | ->];
      [apply onScriptComplete_keeps; assumption|exact Hp].
  - apply jsonpArray_push_rel in Hop. rewrite (sr_promises _ _ Hop).
    apply delivered_keeps; assumption.
  - apply require_run in Hop. rewrite (rr_promises _ _ Hop). exact Hp.
Qed.

(** C4, as amended: when the timer of a pending load expires, the
    promise of the load is rejected with the script's error object,
    whose type is ["timeout"] and whose request is the locator of the
    script, and the slot of the unit reads [undefined].  Any signal
    arriving while the unit is settled is a no-op: in every state where
    the slot of the unit holds no pending load, an event on a script of
    the unit, of whatever type, clears the script's timer and changes
    nothing else; a delivery in a reachable state settles no promise
    and changes no slot; and the rejected promise stays rejected under
    every later call, so the future is not settled a second time.
    Right after the timeout an event on the script, or the timer,
    leaves the state as it is. *)
Theorem timeout_rejects_with_locator (k : nat) (sc : script) (p : nat) (st : state) :
  scripts st !! k = Some sc ->
  sc_timer sc = true ->
  slot_of (chunkStatus st) (sc_chunkId sc) = Waiter p ->
  promises st !! p = Some Pending ->
  let st' := timeout_fires k st in
  future_state st' [APromise p] = Rejected k /\
  (exists error, sc_error <$> scripts st' !! k = Some error /\
     err_type error = VStr "timeout" /\
     err_request error = VStr (sc_src sc)) /\
  slot_of (chunkStatus st') (sc_chunkId sc) = Undefined /\
  (forall st1 sc1 ev,
     scripts st1 !! k = Some sc1 -> sc_chunkId sc1 = sc_chunkId sc ->
     truthy (slot_of (chunkStatus st1) (sc_chunkId sc)) = false ->
     handler_is_noop k ev st1) /\
  (forall fuel chunkData st1 st2,
     reachable st1 ->
     outcome_state (jsonpArray_push fuel chunkData st1) = Some st2 ->
     promises st2 = promises st1 /\ chunkStatus st2 = chunkStatus st1) /\
  (forall o st1 st2,
     promises st1 !! p = Some (Rejected k) -> apply_op o st1 = Some st2 ->
     promises st2 !! p = Some (Rejected k)) /\
  (forall type, script_event k type st' = st') /\
  timeout_fires k st' = st'.
Proof.
  intros Hk Ht Hs Hp st'.
  assert (Est' : st' = onScriptComplete k {| ev_type := "timeout"; ev_target := Some k |} st).
  { unfold st', timeout_fires. rewrite Hk, Ht. reflexivity. }
  destruct (onScriptComplete_pending k sc p {| ev_type := "timeout"; ev_target := Some k |}
              st Hk Hs Hp) as (Ep & Es & Ec).
  rewrite <- Est' in Ep, Es, Ec.
  rewrite (event_request_self k sc) in Es by (exact Hk || reflexivity).
  change (event_class {| ev_type := "timeout"; ev_target := Some k |}) with "timeout" in Es.
  assert (Hk' : scripts st' !! k
                = Some (set_error (chunk_load_error (sc_chunkId sc) "timeout"
                                     (VStr (sc_src sc))) (set_timer false sc))).
  { rewrite Es. apply list_lookup_insert_eq. eapply lookup_lt_Some; exact Hk. }
  split.
  { apply future_state_rejected. rewrite Ep.
    apply list_lookup_insert_eq. eapply lookup_lt_Some; exact Hp. }
  split; [eexists; split; [rewrite Hk'; reflexivity|split; reflexivity]|].
  split; [rewrite Ec; apply slot_of_insert_eq|].
  split.
  { intros st1 sc1 ev Hk1 Hid Hs1. apply (onScriptComplete_settled k sc1 ev st1 Hk1).
    rewrite Hid. exact Hs1. }
  split.
  { intros fuel cd st1 st2 Hr Hpush. apply reachable_queue_unused in Hr.
    destruct (jsonpArray_push_settles_nothing fuel cd st1 st2 Hr Hpush) as (_ & E1 & E2).
    split; assumption. }
  split.
  { intros o st1 st2 Hrej Hop.
    apply (apply_op_keeps_settled o st1 st2 p (Rejected k) Hop Hrej). discriminate. }
  split.
  - intros type. unfold script_event.
    apply (onScriptComplete_reset k _ _ st' Hk'); [reflexivity|].
    simpl. rewrite Ec. apply lookup_insert_eq.
  - unfold timeout_fires. rewrite Hk'. reflexivity.
Qed.

Lemma timeout_rejects_with_locator_witness :
  let st' := timeout_fires 0 st_load5 in
  future_state st' [APromise 0] = Rejected 0 /\
  (exists error, sc_error <$> scripts st' !! 0 = Some error /\
     err_type error = VStr "timeout" /\
     err_request error = VStr (sc_src (fresh_script (KNum 5)))) /\
  slot_of (chunkStatus st') (sc_chunkId (fresh_script (KNum 5))) = Undefined /\
  (forall st1 sc1 ev,
     scripts st1 !! 0 = Some sc1 -> sc_chunkId sc1 = sc_chunkId (fresh_script (KNum 5)) ->
     truthy (slot_of (chunkStatus st1) (sc_chunkId (fresh_script (KNum 5)))) = false ->
     handler_is_noop 0 ev st1) /\
  (forall fuel chunkData st1 st2,
     reachable st1 ->
     outcome_state (jsonpArray_push fuel chunkData st1) = Some st2 ->
     promises st2 = promises st1 /\ chunkStatus st2 = chunkStatus st1) /\
  (forall o st1 st2,
     promises st1 !! 0 = Some (Rejected 0) -> apply_op o st1 = Some st2 ->
     promises st2 !! 0 = Some (Rejected 0)) /\
  (forall type, script_event 0 type st' = st') /\
  timeout_fires 0 st' = st'.
Proof.
  apply (timeout_rejects_with_locator 0 (fresh_script (KNum 5)) 0 st_load5);
    reflexivity.
Defined.

Lemma onScriptComplete_timer k sc ev st :
  scripts st !! k = Some sc ->
  exists sc', scripts (onScriptComplete k ev st) !! k = Some sc' /\ sc_timer sc' = false.
Proof.
  intros Hk. unfold onScriptComplete. rewrite Hk. simpl.
  assert (H1 : alter (set_timer false) k (scripts st) !! k = Some (set_timer false sc))
    by (rewrite list_lookup_alter_eq, Hk; reflexivity).
  destruct (slot_of (chunkStatus st) (sc_chunkId sc)) as [| |q]; simpl.
  - eexists. split; [exact H1|reflexivity].
  - eexists. split; [exact H1|reflexivity].
  - unfold reject, settle. simpl.
    assert (H2 : forall e, alter (set_error e) k (alter (set_timer false) k (scripts st)) !! k
                   = Some (set_error e (set_timer false sc)))
      by (intros e; rewrite list_lookup_alter_eq, H1; reflexivity).
    destruct (promises st !! q) as [[| |]|]; simpl;
      (eexists; split; [apply H2|reflexivity]).
Qed.

(** X6: the first run of a script's handler cancels the script's timer
    (line 45), whatever the event and whatever the slot of its unit
    holds: after the run the timer of the script is not armed, so an
    expiry after any event, or a second expiry, does not run the
    handler and changes nothing. *)
Theorem timer_fires_at_most_once (k : nat) (sc : script) (ev : event) (st : state) :
  scripts st !! k = Some sc ->
  (exists sc', scripts (onScriptComplete k ev st) !! k = Some sc' /\
               sc_timer sc' = false) /\
  (exists sc', scripts (timeout_fires k (timeout_fires k st)) !! k = Some sc' /\
               (sc_timer sc = true -> sc_timer sc' = false)) /\
  timeout_fires k (onScriptComplete k ev st) = onScriptComplete k ev st /\
  timeout_fires k (timeout_fires k st) = timeout_fires k st.
Proof.
  intros Hk.
  assert (H : forall ev', timeout_fires k (onScriptComplete k ev' st)
                          = onScriptComplete k ev' st).
  { intros ev'. destruct (onScriptComplete_timer k sc ev' st Hk) as (sc' & Hk' & Ht).
    unfold timeout_fires at 1. rewrite Hk', Ht. reflexivity. }
  assert (H2 : timeout_fires k (timeout_fires k st) = timeout_fires k st).
  { destruct (timeout_fires_unfold k st) as [E|E]; rewrite E; [apply H|exact E]. }
  split; [apply (onScriptComplete_timer k sc ev st Hk)|]. split; [|split; [apply H|exact H2]].
  rewrite H2. unfold timeout_fires. rewrite Hk. destruct (sc_timer sc) eqn:Ht.
  - destruct (onScriptComplete_timer k sc {| ev_type := "timeout"; ev_target := Some k |}
                st Hk) as (sc' & Hk' & Ht').
    exists sc'. split; [exact Hk'|intros _; exact Ht'].
  - exists sc. split; [exact Hk|discriminate].
Qed.

Lemma timer_fires_at_most_once_witness :
  (exists sc', scripts (onScriptComplete 0 {| ev_type := "load"; ev_target := Some 0 |}
                          st_load5) !! 0 = Some sc' /\
               sc_timer sc' = false) /\
  (exists sc', scripts (timeout_fires 0 (timeout_fires 0 st_load5)) !! 0 = Some sc' /\
               (sc_timer (fresh_script (KNum 5)) = true -> sc_timer sc' = false)) /\
  timeout_fires 0 (onScriptComplete 0 {| ev_type := "load"; ev_target := Some 0 |} st_load5)
  = onScriptComplete 0 {| ev_type := "load"; ev_target := Some 0 |} st_load5 /\
  timeout_fires 0 (timeout_fires 0 st_load5) = timeout_fires 0 st_load5.
Proof.
  apply (timer_fires_at_most_once 0 (fresh_script (KNum 5))
           {| ev_type := "load"; ev_target := Some 0 |} st_load5).
  reflexivity.
Defined.

(** X7: a [load] event on the script of a pending load is reported as a
    failure of class ["missing"]: the promise is rejected with the
    script's locator as request, and the slot of the unit reads
    [undefined] afterwards. *)
Theorem load_event_on_pending_is_missing (k : nat) (sc : script) (p : nat) (st : state) :
  scripts st !! k = Some sc ->
  slot_of (chunkStatus st) (sc_chunkId sc) = Waiter p ->
  promises st !! p = Some Pending ->
  let st' := script_event k "load" st in
  future_state st' [APromise p] = Rejected k /\
  sc_error <$> scripts st' !! k
    = Some (chunk_load_error (sc_chunkId sc) "missing" (VStr (sc_src sc))) /\
  slot_of (chunkStatus st') (sc_chunkId sc) = Undefined.
Proof.
  intros Hk Hs Hp st'.
  destruct (onScriptComplete_pending k sc p {| ev_type := "load"; ev_target := Some k |}
              st Hk Hs Hp) as (Ep & Es & Ec).
  fold (script_event k "load" st) in Ep, Es, Ec. fold st' in Ep, Es, Ec.
  rewrite (event_request_self k sc) in Es by (exact Hk || reflexivity).
  change (event_class {| ev_type := "load"; ev_target := Some k |}) with "missing" in Es.
  split; [|split].
  - apply future_state_rejected. rewrite Ep.
    apply list_lookup_insert_eq. eapply lookup_lt_Some; exact Hp.
  - rewrite Es. rewrite list_lookup_insert_eq by (eapply lookup_lt_Some; exact Hk).
    reflexivity.
  - rewrite Ec. apply slot_of_insert_eq.
Qed.

Lemma load_event_on_pending_is_missing_witness :
  let st' := script_event 0 "load" st_load5 in
  future_state st' [APromise 0] = Rejected 0 /\
  sc_error <$> scripts st' !! 0
    = Some (chunk_load_error (sc_chunkId (fresh_script (KNum 5))) "missing"
              (VStr (sc_src (fresh_script (KNum 5))))) /\
  slot_of (chunkStatus st') (sc_chunkId (fresh_script (KNum 5))) = Undefined.
Proof.
  apply (load_event_on_pending_is_missing 0 (fresh_script (KNum 5)) 0 st_load5);
    reflexivity.
Defined.

(** X8: the handler of a script is tied to the unit, not to the load
    that created the script.  When a load has timed out and the unit is
    requested again, a late event on the first script rejects the
    promise of the second load, with the first script's error object,
    and resets the slot once more. *)
Theorem stale_event_rejects_retry (c : key) (type : string) (st : state) :
  slot_of (chunkStatus st) c = Undefined ->
  let k1 := length (scripts st) in
  let st2 := timeout_fires k1 (fresh_load c st) in
  let p2 := S (length (promises st)) in
  let st3 := fresh_load c st2 in
  let st4 := script_event k1 type st3 in
  loadChunk c st2 = ([APromise p2], st3) /\
  future_state st3 [APromise p2] = Pending /\
  future_state st4 [APromise p2] = Rejected k1 /\
  slot_of (chunkStatus st4) c = Undefined.
Proof.
  intros Hs k1 st2 p2 st3 st4.
  destruct (loadChunk_unrequested c st Hs) as (_ & Esc1 & Epr1 & Esl1).
  set (st1 := fresh_load c st) in *.
  assert (Hk1 : scripts st1 !! k1 = Some (fresh_script c)).
  { rewrite Esc1. unfold k1. rewrite lookup_app_r by lia.
    rewrite Nat.sub_diag. reflexivity. }
  assert (Hp1 : promises st1 !! length (promises st) = Some Pending).
  { rewrite Epr1. rewrite lookup_app_r by lia. rewrite Nat.sub_diag. reflexivity. }
  assert (Et : st2 = onScriptComplete k1 {| ev_type := "timeout"; ev_target := Some k1 |} st1).
  { unfold st2, timeout_fires. rewrite Hk1. reflexivity. }
  destruct (onScriptComplete_pending k1 (fresh_script c) (length (promises st))
              {| ev_type := "timeout"; ev_target := Some k1 |} st1 Hk1 Esl1 Hp1)
    as (Ep2 & Es2 & Ec2).
  rewrite <- Et in Ep2, Es2, Ec2. simpl in Ec2.
  assert (Hs2 : slot_of (chunkStatus st2) c = Undefined)
    by (rewrite Ec2; apply slot_of_insert_eq).
  assert (El2 : length (promises st2) = p2).
  { rewrite Ep2, length_insert, Epr1, length_app. simpl. unfold p2. lia. }
  destruct (loadChunk_unrequested c st2 Hs2) as (El3 & Esc3 & Epr3 & Esl3).
  fold st3 in El3, Esc3, Epr3, Esl3. rewrite El2 in El3, Esl3.
  assert (Hlt : k1 < length (scripts st1))
    by (rewrite Esc1, length_app; simpl; unfold k1; lia).
  set (sc2 := set_error _ (set_timer false (fresh_script c))) in Es2.
  assert (Hk3 : scripts st3 !! k1 = Some sc2).
  { rewrite Esc3. apply lookup_app_l_Some. rewrite Es2.
    apply list_lookup_insert_eq. exact Hlt. }
  assert (Hp3 : promises st3 !! p2 = Some Pending).
  { rewrite Epr3, <- El2. rewrite lookup_app_r by lia.
    rewrite Nat.sub_diag. reflexivity. }
  destruct (onScriptComplete_pending k1 sc2 p2 {| ev_type := type; ev_target := Some k1 |}
              st3 Hk3 Esl3 Hp3) as (Ep4 & _ & Ec4).
  fold (script_event k1 type st3) in Ep4, Ec4. fold st4 in Ep4, Ec4.
  split; [exact El3|]. split; [simpl; rewrite Hp3; reflexivity|]. split.
  - apply future_state_rejected. rewrite Ep4.
    apply list_lookup_insert_eq. eapply lookup_lt_Some; exact Hp3.
  - rewrite Ec4. apply slot_of_insert_eq.
Qed.

Lemma stale_event_rejects_retry_witness :
  let k1 := length (scripts init) in
  let st2 := timeout_fires k1 (fresh_load (KNum 5) init) in
  let p2 := S (length (promises init)) in
  let st3 := fresh_load (KNum 5) st2 in
  let st4 := script_event k1 "load" st3 in
  loadChunk (KNum 5) st2 = ([APromise p2], st3) /\
  future_state st3 [APromise p2] = Pending /\
  future_state st4 [APromise p2] = Rejected k1 /\
  slot_of (chunkStatus st4) (KNum 5) = Undefined.
Proof.
  apply (stale_event_rejects_retry (KNum 5) "load" init). reflexivity.
Defined.

(** X9: in a reachable state the handler of a script settles nothing
    but the load of its own unit: every other pending unit keeps its
    slot, and its promise stays pending. *)
Theorem other_units_stay_pending
    (k : nat) (sc : script) (ev : event) (c' : key) (p' : nat) (st : state) :
  reachable st ->
  scripts st !! k = Some sc ->
  c' <> sc_chunkId sc ->
  slot_of (chunkStatus st) c' = Waiter p' ->
  slot_of (chunkStatus (onScriptComplete k ev st)) c' = Waiter p' /\
  promises (onScriptComplete k ev st) !! p' = Some Pending.
Proof.
  intros Hr Hk Hne Hs'. apply reachable_loader_inv in Hr.
  destruct Hr as (Hp & Hi & _).
  pose proof (proj1 (slot_of_Waiter _ _ _) Hs') as Hc'.
  pose proof (Hp _ _ Hc') as Hpend.
  unfold onScriptComplete. rewrite Hk. simpl.
  destruct (slot_of (chunkStatus st) (sc_chunkId sc)) as [| |q] eqn:Hs; simpl.
  - rewrite slot_of_insert_ne by congruence. split; assumption.
  - split; assumption.
  - rewrite slot_of_insert_ne by congruence.
    apply slot_of_Waiter in Hs. pose proof (Hp _ _ Hs) as Hq.
    unfold reject, settle. simpl. rewrite Hq. simpl.
    split; [exact Hs'|].
    rewrite list_lookup_insert_ne; [exact Hpend|].
    intros ->. apply Hne. eapply Hi; eassumption.
Qed.

Lemma other_units_stay_pending_witness :
  slot_of (chunkStatus (onScriptComplete 0 {| ev_type := "error"; ev_target := Some 0 |}
                          st_load56)) (KNum 6) = Waiter 1 /\
  promises (onScriptComplete 0 {| ev_type := "error"; ev_target := Some 0 |} st_load56) !! 1
    = Some Pending.
Proof.
  apply (other_units_stay_pending 0 (fresh_script (KNum 5))
           {| ev_type := "error"; ev_target := Some 0 |} (KNum 6) 1 st_load56).
  - apply (reachable_step st_load5 (OpLoad (KNum 6))); [|reflexivity].
    apply (reachable_step init (OpLoad (KNum 5))); [|reflexivity].
    apply reachable_init.
  - reflexivity.
  - discriminate.
  - reflexivity.
Defined.

(** ** What every reachable state of the loader satisfies, continued *)

Lemma timers_armed_other k ck st st' :
  (forall j, j <> k -> scripts st' !! j = scripts st !! j) ->
  (forall sc, scripts st !! k = Some sc -> sc_chunkId sc = ck) ->
  (forall c p, chunkStatus st' !! c = Some (Waiter p) ->
     c <> ck /\ chunkStatus st !! c = Some (Waiter p)) ->
  timers_armed st -> timers_armed st'.
Proof.
  intros Hj Hk Hc Ha c p Hcp. destruct (Hc c p Hcp) as [Hne Hold].
  destruct (Ha c p Hold) as (k' & sc' & Hk' & Hid & Ht).
  exists k', sc'. split; [|split; assumption].
  rewrite Hj; [exact Hk'|]. intros ->. apply Hne. rewrite <- Hid. eapply Hk, Hk'.
Qed.

Lemma timers_armed_loadChunk c0 st : timers_armed st -> timers_armed (snd (loadChunk c0 st)).
Proof.
  intros Ha. unfold loadChunk.
  destruct (slot_of (chunkStatus st) c0); simpl; try exact Ha.
  intros c p Hc. simpl in Hc. destruct (decide (c = c0)) as [->|Hne].
  - exists (length (scripts st)), (fresh_script c0). simpl.
    rewrite lookup_app_r by lia. rewrite Nat.sub_diag. repeat split.
  - rewrite lookup_insert_ne in Hc by congruence.
    destruct (Ha c p Hc) as (k & sc & Hk & Hid & Ht).
    exists k, sc. simpl. split; [apply lookup_app_l_Some, Hk|split; assumption].
Qed.

Lemma timers_armed_onScriptComplete k ev st :
  timers_armed st -> timers_armed (onScriptComplete k ev st).
Proof.
  intros Ha. unfold onScriptComplete.
  destruct (scripts st !! k) as [sc|] eqn:Hk; [|exact Ha]. simpl.
  assert (Hsame : forall sc0, scripts st !! k = Some sc0 -> sc_chunkId sc0 = sc_chunkId sc)
    by (intros sc0 H0; congruence).
  destruct (slot_of (chunkStatus st) (sc_chunkId sc)) as [| |q] eqn:Hs; simpl.
  - apply (timers_armed_other k (sc_chunkId sc) st); try assumption.
    + intros j Hj. simpl. rewrite list_lookup_alter_ne by congruence. reflexivity.
    + intros c p Hc. simpl in Hc. split.
      * intros ->. rewrite lookup_insert_eq in Hc. discriminate.
      * destruct (decide (c = sc_chunkId sc)) as [->|Hne];
          [rewrite lookup_insert_eq in Hc; discriminate|].
        rewrite lookup_insert_ne in Hc by congruence. exact Hc.
  - apply (timers_armed_other k (sc_chunkId sc) st); try assumption.
    + intros j Hj. simpl. rewrite list_lookup_alter_ne by congruence. reflexivity.
    + intros c p Hc. simpl in Hc. split; [|exact Hc].
      intros ->. apply slot_of_Waiter in Hc. congruence.
  - apply (timers_armed_other k (sc_chunkId sc) st); try assumption.
    + intros j Hj. unfold reject, settle. simpl.
      destruct (promises st !! q) as [[| |]|]; simpl;
        rewrite !list_lookup_alter_ne by congruence; reflexivity.
    + intros c p Hc.
      assert (Hc' : <[sc_chunkId sc := Undefined]> (chunkStatus st) !! c = Some (Waiter p)).
      { revert Hc. unfold reject, settle. simpl.
        destruct (promises st !! q) as [[| |]|]; simpl; intros Hc; exact Hc. }
      split.
      * intros ->. rewrite lookup_insert_eq in Hc'. discriminate.
      * destruct (decide (c = sc_chunkId sc)) as [->|Hne];
          [rewrite lookup_insert_eq in Hc'; discriminate|].
        rewrite lookup_insert_ne in Hc' by congruence. exact Hc'.
Qed.

Lemma timers_armed_frame st st' :
  chunkStatus st' = chunkStatus st -> scripts st' = scripts st ->
  timers_armed st -> timers_armed st'.
Proof. intros Ec Es. unfold timers_armed. rewrite Ec, Es. tauto. Qed.

Lemma delivered_chunkStatus chunkData st :
  chunkStatus (delivered chunkData st) = chunkStatus st.
Proof.
  unfold delivered. simpl.
  destruct (foldl_add_module_frame (moreModules chunkData)
              (foldl mark_chunk st (chunkIds chunkData))) as (_ & _ & _ & E & _).
  destruct (foldl_mark_chunk_frame (chunkIds chunkData) st) as (_ & _ & _ & E').
  congruence.
Qed.

(** Deliveries, scans and requests leave the loader's slots and scripts
    as they are, in every state. *)
Lemma apply_op_loader_frame o st st' :
  apply_op o st = Some st' ->
  match o with
  | OpPush _ _ | OpRequire _ _ =>
      chunkStatus st' = chunkStatus st /\ scripts st' = scripts st
  | _ => True
  end.
Proof.
  destruct o as [c|k type|k|fuel cd|fuel m]; simpl; try exact (fun _ => I).
  - intros H. apply jsonpArray_push_rel in H.
    rewrite (sr_chunkStatus _ _ H), (sr_scripts _ _ H).
    split; [apply delivered_chunkStatus|apply delivered_scripts].
  - intros H. apply require_run in H.
    split; [apply (rr_chunkStatus _ _ H)|apply (rr_scripts _ _ H)].
Qed.

Lemma reachable_timers_armed st : reachable st -> timers_armed st.
Proof.
  induction 1 as [|st o st' _ IH Hop].
  - intros c p H. simpl in H. apply lookup_singleton_Some in H.
    destruct H as [_ H]. discriminate.
  - pose proof (apply_op_loader_frame o st st' Hop) as Hf.
    destruct o as [c|k type|k|fuel cd|fuel m]; simpl in Hop.
    + injection Hop as <-. apply timers_armed_loadChunk, IH.
    + injection Hop as <-. apply timers_armed_onScriptComplete, IH.
    + injection Hop as <-. destruct (timeout_fires_unfold k st) as [-> | ->];
        [apply timers_armed_onScriptComplete, IH|exact IH].
    + destruct Hf as [Ec Es]. exact (timers_armed_frame st st' Ec Es IH).
    + destruct Hf as [Ec Es]. exact (timers_armed_frame st st' Ec Es IH).
Qed.

(** X10: in a reachable state no load can stay pending for ever: every
    pending unit has a script whose timer is still armed, and when that
    timer expires the promise of the load is rejected. *)
Theorem pending_load_has_live_timer (c : key) (p : nat) (st : state) :
  reachable st ->
  slot_of (chunkStatus st) c = Waiter p ->
  exists k sc,
    scripts st !! k = Some sc /\ sc_chunkId sc = c /\ sc_timer sc = true /\
    future_state (timeout_fires k st) [APromise p] = Rejected k.
Proof.
  intros Hr Hs.
  pose proof (reachable_waiter_pending st c p Hr Hs) as Hp.
  apply reachable_timers_armed in Hr.
  destruct (Hr c p (proj1 (slot_of_Waiter _ _ _) Hs)) as (k & sc & Hk & Hid & Ht).
  exists k, sc. split; [exact Hk|]. split; [exact Hid|]. split; [exact Ht|].
  unfold timeout_fires. rewrite Hk, Ht. subst c.
  destruct (onScriptComplete_pending k sc p {| ev_type := "timeout"; ev_target := Some k |}
              st Hk Hs Hp) as (Ep & _).
  apply future_state_rejected. rewrite Ep.
  apply list_lookup_insert_eq. eapply lookup_lt_Some; exact Hp.
Qed.

Lemma pending_load_has_live_timer_witness :
  exists k sc,
    scripts st_load56 !! k = Some sc /\ sc_chunkId sc = KNum 6 /\ sc_timer sc = true /\
    future_state (timeout_fires k st_load56) [APromise 1] = Rejected k.
Proof.
  apply (pending_load_has_live_timer (KNum 6) 1 st_load56).
  - apply (reachable_step st_load5 (OpLoad (KNum 6))); [|reflexivity].
    apply (reachable_step init (OpLoad (KNum 5))); [|reflexivity].
    apply reachable_init.
  - reflexivity.
Defined.

Lemma main_only_loadChunk c0 st : main_only st -> main_only (snd (loadChunk c0 st)).
Proof.
  intros (H77 & Hz & Hs). unfold loadChunk.
  destruct (slot_of (chunkStatus st) c0) eqn:Hslot; simpl;
    try (split; [|split]; assumption).
  assert (Hne : c0 <> KNum 77).
  { intros ->. unfold slot_of in Hslot. rewrite H77 in Hslot. discriminate. }
  unfold main_only. simpl. split; [|split].
  - rewrite lookup_insert_ne by exact Hne. exact H77.
  - intros c Hc. destruct (decide (c = c0)) as [->|Hn].
    + rewrite lookup_insert_eq in Hc. discriminate.
    + rewrite lookup_insert_ne in Hc by congruence. apply Hz, Hc.
  - intros k sc Hk. apply lookup_app_Some in Hk.
    destruct Hk as [Hk|[_ Hk]]; [eapply Hs, Hk|].
    destruct (k - length (scripts st)); simpl in Hk; [|discriminate].
    injection Hk as <-. exact Hne.
Qed.

Lemma main_only_onScriptComplete k ev st :
  main_only st -> main_only (onScriptComplete k ev st).
Proof.
  intros (H77 & Hz & Hs). unfold onScriptComplete.
  destruct (scripts st !! k) as [sc|] eqn:Hk; [|split; [|split]; assumption]. simpl.
  pose proof (Hs k sc Hk) as Hne.
  assert (Hs1 : forall (f : script -> script) (l : list script),
            (forall x, sc_chunkId (f x) = sc_chunkId x) ->
            (forall j x, l !! j = Some x -> sc_chunkId x <> KNum 77) ->
            forall j x, alter f k l !! j = Some x -> sc_chunkId x <> KNum 77).
  { intros f l Hf Hl j x Hj. destruct (decide (k = j)) as [->|Hn].
    - rewrite list_lookup_alter_eq in Hj.
      destruct (l !! j) as [x0|] eqn:E; [|discriminate].
      injection Hj as <-. rewrite Hf. eapply Hl, E.
    - rewrite list_lookup_alter_ne in Hj by exact Hn. eapply Hl, Hj. }
  assert (Hz1 : forall c, <[sc_chunkId sc := Undefined]> (chunkStatus st) !! c = Some Zero ->
                  c = KNum 77).
  { intros c Hc. destruct (decide (c = sc_chunkId sc)) as [->|Hn].
    - rewrite lookup_insert_eq in Hc. discriminate.
    - rewrite lookup_insert_ne in Hc by congruence. apply Hz, Hc. }
  assert (H771 : <[sc_chunkId sc := Undefined]> (chunkStatus st) !! KNum 77 = Some Zero)
    by (rewrite lookup_insert_ne by exact Hne; exact H77).
  destruct (slot_of (chunkStatus st) (sc_chunkId sc)) as [| |q]; unfold main_only; simpl.
  - split; [exact H771|]. split; [exact Hz1|].
    apply Hs1; [reflexivity|exact Hs].
  - split; [exact H77|]. split; [exact Hz|].
    apply Hs1; [reflexivity|exact Hs].
  - unfold reject, settle. simpl.
    destruct (promises st !! q) as [[| |]|]; simpl;
      (split; [exact H771|]; split; [exact Hz1|];
       apply Hs1; [reflexivity|]; apply Hs1; [reflexivity|exact Hs]).
Qed.

Lemma reachable_main_only st : reachable st -> main_only st.
Proof.
  induction 1 as [|st o st' _ IH Hop].
  - split; [reflexivity|]. split.
    + intros c H. simpl in H. apply lookup_singleton_Some in H. destruct H as [<- _].
      reflexivity.
    + intros k sc H. destruct k; discriminate.
  - pose proof (apply_op_loader_frame o st st' Hop) as Hf.
    destruct o as [c|k type|k|fuel cd|fuel m]; simpl in Hop.
    + injection Hop as <-. apply main_only_loadChunk, IH.
    + injection Hop as <-. apply main_only_onScriptComplete, IH.
    + injection Hop as <-. destruct (timeout_fires_unfold k st) as [-> | ->];
        [apply main_only_onScriptComplete, IH|exact IH].
    + destruct Hf as [Ec Es]. unfold main_only. rewrite Ec, Es. exact IH.
    + destruct Hf as [Ec Es]. unfold main_only. rewrite Ec, Es. exact IH.
Qed.

(** X11: in a reachable state [chunkStatus] holds [0] for unit 77 and
    for no other unit, whatever the deliveries have marked complete in
    [installedChunks].  So [loadChunk] answers with the empty, already
    fulfilled future and no change of state for unit 77 only.  For
    every other unit it does one of two things: it finds a pending load
    and answers with the slot array, a future that is fulfilled at
    once, the state unchanged; or it starts a fetch, with a new script
    appended, a new pending promise, and the slot of the unit holding
    that promise. *)
Theorem only_main_unit_counts_as_loaded (st : state) :
  reachable st ->
  loadChunk (KNum 77) st = ([], st) /\
  forall c, c <> KNum 77 ->
    (exists p, slot_of (chunkStatus st) c = Waiter p /\
               loadChunk c st = ([AValue (Waiter p)], st) /\
               forall st', future_state st' [AValue (Waiter p)] = Fulfilled) \/
    (slot_of (chunkStatus st) c = Undefined /\
     loadChunk c st = ([APromise (length (promises st))], fresh_load c st) /\
     scripts (fresh_load c st) = scripts st ++ [fresh_script c] /\
     promises (fresh_load c st) = promises st ++ [Pending] /\
     slot_of (chunkStatus (fresh_load c st)) c = Waiter (length (promises st)) /\
     future_state (fresh_load c st) [APromise (length (promises st))] = Pending).
Proof.
  intros Hr. apply reachable_main_only in Hr. destruct Hr as (H77 & Hz & _). split.
  - apply loadChunk_complete. unfold slot_of. rewrite H77. reflexivity.
  - intros c Hne. destruct (slot_of (chunkStatus st) c) as [| |p] eqn:Hs.
    + right. destruct (loadChunk_unrequested c st Hs) as (E1 & E2 & E3 & E4).
      split; [reflexivity|]. repeat (split; [assumption|]).
      simpl. rewrite E3, lookup_app_r by lia. rewrite Nat.sub_diag. reflexivity.
    + exfalso. apply Hne, Hz. unfold slot_of in Hs.
      destruct (chunkStatus st !! c) as [s|]; simpl in Hs; [subst s; reflexivity|discriminate].
    + left. exists p. split; [reflexivity|]. split; [|intros st'; reflexivity].
      apply loadChunk_pending, Hs.
Qed.

Lemma only_main_unit_counts_as_loaded_witness :
  loadChunk (KNum 77) st_only_delivered5 = ([], st_only_delivered5) /\
  forall c, c <> KNum 77 ->
    (exists p, slot_of (chunkStatus st_only_delivered5) c = Waiter p /\
               loadChunk c st_only_delivered5 = ([AValue (Waiter p)], st_only_delivered5) /\
               forall st', future_state st' [AValue (Waiter p)] = Fulfilled) \/
    (slot_of (chunkStatus st_only_delivered5) c = Undefined /\
     loadChunk c st_only_delivered5
     = ([APromise (length (promises st_only_delivered5))], fresh_load c st_only_delivered5) /\
     scripts (fresh_load c st_only_delivered5)
     = scripts st_only_delivered5 ++ [fresh_script c] /\
     promises (fresh_load c st_only_delivered5) = promises st_only_delivered5 ++ [Pending] /\
     slot_of (chunkStatus (fresh_load c st_only_delivered5)) c
     = Waiter (length (promises st_only_delivered5)) /\
     future_state (fresh_load c st_only_delivered5)
       [APromise (length (promises st_only_delivered5))] = Pending).
Proof.
  apply (only_main_unit_counts_as_loaded st_only_delivered5).
  apply (reachable_step init (OpPush 1 delivery5)); [|vm_compute; reflexivity].
  apply reachable_init.
Defined.

(** Unit 5, delivered without having been requested, is complete in
    [installedChunks]; a request for it still starts a fetch. *)
Example delivered_unit_is_fetched :
  complete (installedChunks st_only_delivered5) (KNum 5) /\
  slot_of (chunkStatus st_only_delivered5) (KNum 5) = Undefined /\
  fst (loadChunk (KNum 5) st_only_delivered5) = [APromise 0] /\
  scripts (fresh_load (KNum 5) st_only_delivered5) = [fresh_script (KNum 5)] /\
  future_state (fresh_load (KNum 5) st_only_delivered5) [APromise 0] = Pending.
Proof. vm_compute. repeat split. Qed.

(** ** The registry over the whole run *)

Lemma NoDup_invocations (moduleId : key) (calls : list key) :
  NoDup calls -> length (filter (fun k => k = moduleId) calls) <= 1.
Proof.
  induction 1 as [|k calls Hk _ IH]; [simpl; lia|].
  rewrite filter_cons. case_decide as E; [|exact IH].
  subst k. rewrite filter_eq_absent by exact Hk. simpl. lia.
Qed.

Lemma run_rel_calls_once st st' : run_rel st st' -> calls_once st -> calls_once st'.
Proof.
  intros Hr [Hn Hc]. destruct (rr_calls _ _ Hr) as (new & E & Nn & Cn).
  unfold calls_once. rewrite E. split.
  - apply NoDup_app. split; [exact Hn|]. split; [|exact Nn].
    intros id Hin Hin'. destruct (Hc id Hin) as [m Hm].
    destruct (Cn id Hin') as [Hnone _]. congruence.
  - intros id Hin. apply elem_of_app in Hin. destruct Hin as [Hin|Hin].
    + destruct (Hc id Hin) as [m Hm].
      destruct (rr_cache _ _ Hr id m Hm) as (m' & Hm' & _). eauto.
    + apply (Cn id Hin).
Qed.

Lemma calls_once_frame st st' :
  factory_calls st' = factory_calls st -> installedModules st' = installedModules st ->
  calls_once st -> calls_once st'.
Proof. intros Ef Ei. unfold calls_once. rewrite Ef, Ei. tauto. Qed.

Lemma loadChunk_registry c st :
  factory_calls (snd (loadChunk c st)) = factory_calls st /\
  installedModules (snd (loadChunk c st)) = installedModules st.
Proof. unfold loadChunk. destruct (slot_of (chunkStatus st) c); split; reflexivity. Qed.

Lemma onScriptComplete_registry k ev st :
  factory_calls (onScriptComplete k ev st) = factory_calls st /\
  installedModules (onScriptComplete k ev st) = installedModules st.
Proof.
  unfold onScriptComplete. destruct (scripts st !! k) as [sc|]; [|split; reflexivity].
  simpl. destruct (slot_of (chunkStatus st) (sc_chunkId sc)) as [| |q]; simpl;
    try (split; reflexivity).
  unfold reject, settle. simpl. destruct (promises st !! q) as [[| |]|]; split; reflexivity.
Qed.

Lemma delivered_registry chunkData st :
  factory_calls (delivered chunkData st) = factory_calls st /\
  installedModules (delivered chunkData st) = installedModules st.
Proof.
  unfold delivered. simpl.
  assert (Ha : forall mods st0, factory_calls (foldl add_module st0 mods) = factory_calls st0).
  { induction mods as [|m mods IH]; intros st0; simpl; [reflexivity|].
    rewrite IH. reflexivity. }
  assert (Hm : forall ids st0, factory_calls (foldl mark_chunk st0 ids) = factory_calls st0).
  { induction ids as [|c ids IH]; intros st0; simpl; [reflexivity|].
    rewrite IH. unfold mark_chunk.
    destruct (installedChunks st0 !! c) as [[| |p]|]; simpl; try reflexivity.
    unfold resolve, settle. destruct (promises st0 !! p) as [[| |]|]; reflexivity. }
  destruct (foldl_add_module_frame (moreModules chunkData)
              (foldl mark_chunk st (chunkIds chunkData))) as (_ & E & _).
  destruct (foldl_mark_chunk_frame (chunkIds chunkData) st) as (_ & _ & E' & _).
  rewrite Ha, Hm. split; [reflexivity|congruence].
Qed.

Lemma reachable_calls_once st : reachable st -> calls_once st.
Proof.
  induction 1 as [|st o st' Hreach IH Hop].
  - split; [constructor|]. intros id H. inversion H.
  - destruct o as [c|k type|k|fuel cd|fuel m]; simpl in Hop.
    + injection Hop as <-. destruct (loadChunk_registry c st) as [Ef Ei].
      exact (calls_once_frame _ _ Ef Ei IH).
    + injection Hop as <-.
      destruct (onScriptComplete_registry k {| ev_type := type; ev_target := Some k |} st)
        as [Ef Ei].
      exact (calls_once_frame _ _ Ef Ei IH).
    + injection Hop as <-. destruct (timeout_fires_unfold k st) as [-> | ->]; [|exact IH].
      destruct (onScriptComplete_registry k {| ev_type := "timeout"; ev_target := Some k |} st)
        as [Ef Ei].
      exact (calls_once_frame _ _ Ef Ei IH).
    + destruct fuel as [|fuel]; [discriminate|].
      rewrite jsonpArray_push_empty_queue in Hop by apply (reachable_queue_unused st Hreach).
      apply require_run in Hop. apply (run_rel_calls_once _ _ Hop).
      destruct (delivered_registry cd st) as [Ef Ei].
      exact (calls_once_frame _ _ Ef Ei IH).
    + apply require_run in Hop. exact (run_rel_calls_once _ _ Hop IH).
Qed.

(** X12: over the whole run, however loads, events, deliveries and
    requests interleave and whichever of them throw, the factory of a
    module is invoked at most once; and a module whose factory was
    invoked is cached. *)
Theorem factory_runs_at_most_once (moduleId : key) (st : state) :
  reachable st ->
  invocations moduleId st <= 1 /\
  (invocations moduleId st = 1 -> is_Some (installedModules st !! moduleId)).
Proof.
  intros Hr. apply reachable_calls_once in Hr. destruct Hr as [Hn Hc].
  split; [apply NoDup_invocations, Hn|].
  intros H1. apply Hc. unfold invocations in H1.
  destruct (filter (fun k => k = moduleId) (factory_calls st)) as [|k l] eqn:E;
    [discriminate|].
  assert (Hin : k ∈ filter (fun k => k = moduleId) (factory_calls st))
    by (rewrite E; left).
  apply list_elem_of_filter in Hin. destruct Hin as [-> Hin]. exact Hin.
Qed.

Lemma factory_runs_at_most_once_witness :
  invocations (KNum 1) st_delivered5 <= 1 /\
  (invocations (KNum 1) st_delivered5 = 1 ->
   is_Some (installedModules st_delivered5 !! KNum 1)).
Proof.
  apply (factory_runs_at_most_once (KNum 1) st_delivered5).
  apply (reachable_step st_load5 (OpPush 1 delivery5)); [|vm_compute; reflexivity].
  apply (reachable_step init (OpLoad (KNum 5))); [|reflexivity].
  apply reachable_init.
Defined.

(** X13: a request returns or throws within a nesting depth of one more
    than the number of registered modules that are not cached, whatever
    the factories require of each other, cycles included; and it
    leaves no more such modules than it found. *)
Theorem request_ends_within_uncached (fuel : nat) (moduleId : key) (st : state) :
  uncached st < fuel ->
  exists st', outcome_state (__webpack_require__ fuel moduleId st) = Some st' /\
    uncached st' <= uncached st.
Proof.
  intros Hlt. pose proof (require_defined fuel moduleId st Hlt) as Hd.
  pose proof (require_run fuel moduleId st) as Hr.
  destruct (__webpack_require__ fuel moduleId st) as [v st'|x st'|]; simpl in *.
  - exists st'. split; [reflexivity|]. apply run_rel_uncached, Hr. reflexivity.
  - exists st'. split; [reflexivity|]. apply run_rel_uncached, Hr. reflexivity.
  - exfalso. apply Hd. reflexivity.
Qed.

Lemma request_ends_within_uncached_witness :
  exists st', outcome_state (__webpack_require__ 3 (KNum 1) st_cycle) = Some st' /\
    uncached st' <= uncached st_cycle.
Proof.
  apply (request_ends_within_uncached 3 (KNum 1) st_cycle).
  vm_compute. lia.
Defined.

(** Two modules that require each other: the request for the first
    returns, each factory has run once, and the second module holds the
    first one's exports object as it was when it asked for it. *)
Example cycle_runs_each_factory_once :
  exists st', __webpack_require__ 3 (KNum 1) st_cycle = Ret (VObj 0) st' /\
    factory_calls st' = [KNum 1; KNum 2] /\
    (heap st' !! 1) ≫= (fun o => o !! "peer") = Some (VObj 0) /\
    (heap st' !! 0) ≫= (fun o => o !! "peer") = Some (VObj 1).
Proof. eexists. vm_compute. repeat split. Qed.

Lemma exec_stmts_app require self ex b1 b2 st :
  exec_stmts require self ex (b1 ++ b2) st =
  let* (_u, st1) := exec_stmts require self ex b1 st in
  exec_stmts require self ex b2 st1.
Proof.
  revert st. induction b1 as [|s b1 IH]; intros st; simpl; [reflexivity|].
  destruct (exec_stmt require self ex s st) as [u st1|x st1|]; simpl;
    [apply IH|reflexivity|reflexivity].
Qed.

(** X14: a request returns what [module.exports] holds when the factory
    has finished, not the object the factory was given: if the last
    statement of the factory assigns [v] to [module.exports], the
    request returns [v] and the cached record holds [v], whatever the
    statements before it wrote. *)
Theorem request_returns_final_module_exports
    (fuel : nat) (moduleId : key) (body : factory) (v r : val) (st st' : state) :
  installedModules st !! moduleId = None ->
  modules st !! moduleId = Some (body ++ [SModuleExports (ELit v)]) ->
  __webpack_require__ fuel moduleId st = Ret r st' ->
  r = v /\ mod_exports <$> installedModules st' !! moduleId = Some v /\
  mod_l <$> installedModules st' !! moduleId = Some true.
Proof.
  intros Hc Hf. destruct fuel as [|fuel]; [discriminate|].
  rewrite require_unfold, Hc. unfold factory in *. rewrite Hf, exec_stmts_app.
  pose proof (exec_stmts_run _ (require_run fuel) moduleId
                (VObj (length (heap st))) body (enter_factory moduleId st)) as Hx.
  destruct (exec_stmts _ _ _ body _) as [u st1|x st1|]; cbn [bind]; [|discriminate..].
  specialize (Hx st1 eq_refl).
  destruct (rr_cache _ _ Hx moduleId (fresh_record moduleId st)) as (m1 & Hm1 & _).
  { simpl. apply lookup_insert_eq. }
  simpl. rewrite !lookup_alter_eq, Hm1. simpl.
  intros [= <- <-]. simpl. rewrite !lookup_alter_eq, Hm1. repeat split.
Qed.

Lemma request_returns_final_module_exports_witness :
  VNum 7 = VNum 7 /\
  mod_exports <$> installedModules (state_after (__webpack_require__ 1 (KNum 4) st_replace))
    !! KNum 4 = Some (VNum 7) /\
  mod_l <$> installedModules (state_after (__webpack_require__ 1 (KNum 4) st_replace))
    !! KNum 4 = Some true.
Proof.
  apply (request_returns_final_module_exports 1 (KNum 4) [SExport "v" (ELit (VNum 1))]
           (VNum 7) (VNum 7) st_replace).
  - reflexivity.
  - reflexivity.
  - vm_compute. reflexivity.
Defined.

(** ** The queue: scans that find nothing, and the loop that ends *)

Lemma checkDeferredModules_from_waiting rest : forall fuel pre result st,
  chunkQueue st = pre ++ rest ->
  Forall (fun e => ~ satisfied (installedChunks st) e) rest ->
  length rest < fuel ->
  checkDeferredModules_from fuel (length pre) result st = Ret result st.
Proof.
  induction rest as [|e rest IH]; intros fuel pre result st Hq Hall Hlt;
    (destruct fuel as [|fuel]; [simpl in Hlt; lia|]);
    rewrite checkDeferredModules_from_unfold, Hq; cbv zeta.
  - rewrite lookup_ge_None_2 by (rewrite app_nil_r; lia). reflexivity.
  - rewrite list_lookup_middle by reflexivity.
    inversion Hall as [|? ? He Hrest]; subst.
    destruct (fulfilled (installedChunks st) e) eqn:Hf.
    + exfalso. apply He, fulfilled_satisfied, Hf.
    + replace (S (length pre)) with (length (pre ++ [e]))
        by (rewrite length_app; simpl; lia).
      apply IH; [rewrite Hq, <- app_assoc; reflexivity|exact Hrest|simpl in Hlt; lia].
Qed.

Lemma Forall_filter_not {A : Type} (P : A -> Prop) `{forall x, Decision (P x)} (xs : list A) :
  Forall (fun x => ~ P x) (filter (fun x => ~ P x) xs).
Proof.
  apply Forall_forall. intros x Hx. apply list_elem_of_filter in Hx. apply Hx.
Qed.

Lemma filter_none {A : Type} (P : A -> Prop) `{forall x, Decision (P x)} (xs : list A) :
  Forall P xs -> filter (fun x => ~ P x) xs = [].
Proof.
  induction 1 as [|x xs Hx _ IH]; [reflexivity|].
  rewrite filter_cons_False by tauto. exact IH.
Qed.

(** X15: a scan that has returned leaves nothing for the next scan: a
    second [checkDeferredModules] right after it returns [undefined]
    and changes nothing, requesting no module. *)
Theorem second_scan_finds_nothing (fuel fuel' : nat) (st st' : state) (v : val) :
  checkDeferredModules fuel st = Ret v st' ->
  length (chunkQueue st') < fuel' ->
  checkDeferredModules fuel' st' = Ret VUndef st'.
Proof.
  intros Hs Hlt.
  pose proof (checkDeferredModules_from_post fuel [] (chunkQueue st) VUndef st eq_refl)
    as Hpost.
  change (length (@nil (list key))) with 0 in Hpost.
  fold (checkDeferredModules fuel st) in Hpost. rewrite Hs in Hpost.
  assert (Hdef : @Ret val v st' <> OutOfFuel) by discriminate.
  specialize (Hpost Hdef). simpl in Hpost. destruct Hpost as (Eq & _ & Et).
  apply (checkDeferredModules_from_waiting (chunkQueue st') fuel' [] VUndef st' eq_refl);
    [|exact Hlt].
  rewrite Et, Eq. apply Forall_filter_not.
Qed.

Lemma second_scan_finds_nothing_witness :
  checkDeferredModules 1 (state_after (checkDeferredModules 2 st_queued56))
  = Ret VUndef (state_after (checkDeferredModules 2 st_queued56)).
Proof.
  apply (second_scan_finds_nothing 2 1 st_queued56 _ (VObj 0)).
  - vm_compute. reflexivity.
  - vm_compute. lia.
Defined.

(** X16: when every queued entry has all its required units complete,
    the loop of lines 115-117 ends after one scan, and it does what
    requesting the entry module of each entry in queue order does: its
    outcome is that of [scan_entries], every factory run and every
    export included, the value of the last request dropped.  If no
    request throws it returns with the queue empty and each entry
    module requested once. *)
Theorem drain_ends_when_all_satisfied (fuel : nat) (st : state) :
  Forall (satisfied (installedChunks st)) (chunkQueue st) ->
  length (chunkQueue st) + uncached st + 2 <= fuel ->
  drain fuel st
  = (let* (_v, st') := scan_entries fuel [] (chunkQueue st) VUndef st in Ret tt st') /\
  match drain fuel st with
  | Ret _ st' =>
      chunkQueue st' = [] /\
      entry_runs st' = entry_runs st ++ map entry_of (chunkQueue st)
  | Throw _ _ => True
  | OutOfFuel => False
  end.
Proof.
  intros Hall Hle. destruct fuel as [|fuel]; [lia|].
  rewrite drain_unfold. destruct (chunkQueue st) as [|e q] eqn:Hq.
  - split; [reflexivity|]. split; [exact Hq|]. simpl. rewrite app_nil_r. reflexivity.
  - rewrite <- Hq in *.
    assert (Hlen : length (chunkQueue st) <> 0) by (rewrite Hq; discriminate).
    pose proof (checkDeferredModules_from_post fuel [] (chunkQueue st) VUndef st eq_refl)
      as Hpost.
    pose proof (checkDeferredModules_from_defined (chunkQueue st) fuel [] VUndef st eq_refl)
      as Hdef.
    pose proof (checkDeferredModules_from_entries (chunkQueue st) fuel (S fuel) [] VUndef st
                  eq_refl) as Hent.
    change (length (@nil (list key))) with 0 in Hpost, Hdef, Hent.
    fold (checkDeferredModules fuel st) in Hpost, Hdef, Hent.
    assert (Hd : checkDeferredModules fuel st <> OutOfFuel) by (apply Hdef; lia).
    specialize (Hpost Hd). rewrite <- Hent by lia. clear Hent.
    destruct (checkDeferredModules fuel st) as [w st1|x st1|]; cbn [bind];
      [|split; [reflexivity|exact I]|exfalso; apply Hd; reflexivity].
    simpl in Hpost. destruct Hpost as (E1 & E2 & _).
    rewrite filter_none in E1 by exact Hall. rewrite filter_all in E2 by exact Hall.
    destruct fuel as [|fuel]; [lia|].
    rewrite drain_unfold, E1. split; [reflexivity|]. split; [exact E1|exact E2].
Qed.

Lemma drain_ends_when_all_satisfied_witness :
  drain 4 st_queued56
  = (let* (_v, st') := scan_entries 4 [] (chunkQueue st_queued56) VUndef st_queued56 in
     Ret tt st') /\
  match drain 4 st_queued56 with
  | Ret _ st' =>
      chunkQueue st' = [] /\
      entry_runs st' = entry_runs st_queued56 ++ map entry_of (chunkQueue st_queued56)
  | Throw _ _ => True
  | OutOfFuel => False
  end.
Proof.
  apply (drain_ends_when_all_satisfied 4 st_queued56).
  - refine (bool_decide_unpack _ _). vm_compute. exact I.
  - vm_compute. lia.
Defined.

(** ** Locators *)

Lemma list_ascii_of_string_app (a b : string) :
  list_ascii_of_string (a +:+ b) = list_ascii_of_string a ++ list_ascii_of_string b.
Proof.
  induction a as [|x a IH]; [reflexivity|].
  change (String x a +:+ b) with (String x (a +:+ b)). simpl. rewrite IH. reflexivity.
Qed.

Lemma string_app_inv_tail (a b s : string) : a +:+ s = b +:+ s -> a = b.
Proof.
  intros H. apply (f_equal list_ascii_of_string) in H.
  rewrite !list_ascii_of_string_app in H. apply app_inv_tail in H.
  rewrite <- (string_of_list_ascii_of_string a), <- (string_of_list_ascii_of_string b).
  rewrite H. reflexivity.
Qed.

Lemma to_uint_nonnil (n : N) : N.to_uint n <> Decimal.Nil.
Proof.
  destruct n as [|p]; [discriminate|]. apply DecimalPos.Unsigned.to_uint_nonnil.
Qed.

Lemma key_to_string_inj (c c' : key) : key_to_string c = key_to_string c' -> c = c'.
Proof.
  destruct c as [n|], c' as [n'|]; simpl; intros H.
  - apply (f_equal NilZero.uint_of_string) in H.
    rewrite !NilZero.usu in H by apply to_uint_nonnil.
    injection H as H. apply DecimalN.Unsigned.to_uint_inj in H. congruence.
  - apply (f_equal NilZero.uint_of_string) in H.
    rewrite NilZero.usu in H by apply to_uint_nonnil. discriminate.
  - apply (f_equal NilZero.uint_of_string) in H.
    rewrite NilZero.usu in H by apply to_uint_nonnil. discriminate.
  - reflexivity.
Qed.

(** X17: two different units are never fetched from the same locator:
    the locator of line 41 determines the unit id. *)
Theorem distinct_units_distinct_locators (c c' : key) :
  c <> c' -> locator c <> locator c'.
Proof.
  intros Hne H. apply Hne. unfold locator in H.
  apply String.app_inj in H. apply string_app_inv_tail in H.
  apply key_to_string_inj, H.
Qed.

Lemma distinct_units_distinct_locators_witness : locator (KNum 5) <> locator (KNum 15).
Proof.
  apply (distinct_units_distinct_locators (KNum 5) (KNum 15)). discriminate.
Defined.

(** ** Deliveries repeated *)

Lemma require_ret_cached fuel moduleId st v st1 :
  __webpack_require__ fuel moduleId st = Ret v st1 ->
  exists m, installedModules st1 !! moduleId = Some m /\ mod_exports m = v.
Proof.
  destruct fuel as [|fuel]; [discriminate|]. rewrite require_unfold.
  destruct (installedModules st !! moduleId) as [m|] eqn:Hc.
  - intros [= <- <-]. eauto.
  - destruct (modules st !! moduleId) as [f|]; [|discriminate].
    pose proof (exec_stmts_run _ (require_run fuel) moduleId
                  (VObj (length (heap st))) f (enter_factory moduleId st)) as Hx.
    destruct (exec_stmts _ _ _ f _) as [u st4|x st4|]; cbn [bind]; [|discriminate..].
    specialize (Hx st4 eq_refl).
    destruct (rr_cache _ _ Hx moduleId (fresh_record moduleId st)) as (m4 & Hm4 & _).
    { simpl. apply lookup_insert_eq. }
    simpl. rewrite lookup_alter_eq, Hm4. simpl. intros [= <- <-].
    exists (set_loaded m4). simpl. rewrite lookup_alter_eq, Hm4. split; reflexivity.
Qed.

(** X18: with nothing queued, a delivery that is repeated does not run
    its entry module again: the second delivery returns the value the
    first returned, invokes no factory, and leaves the cache as it
    was. *)
Theorem repeated_delivery_returns_cached
    (fuel fuel' : nat) (chunkData : chunk_data) (st st1 : state) (v : val) :
  chunkQueue st = [] ->
  jsonpArray_push fuel chunkData st = Ret v st1 ->
  exists st2, jsonpArray_push (S fuel') chunkData st1 = Ret v st2 /\
    factory_calls st2 = factory_calls st1 /\
    installedModules st2 = installedModules st1.
Proof.
  intros Hq H1. destruct fuel as [|fuel]; [discriminate|].
  rewrite jsonpArray_push_empty_queue in H1 by exact Hq.
  destruct (require_ret_cached _ _ _ _ _ H1) as (m & Hm & Hv).
  assert (Hq1 : chunkQueue st1 = []).
  { assert (Hr : run_rel (delivered chunkData st) st1)
      by (eapply require_run; rewrite H1; reflexivity).
    rewrite (rr_chunkQueue _ _ Hr), delivered_chunkQueue. exact Hq. }
  destruct (delivered_registry chunkData st1) as [Ef Ei].
  exists (delivered chunkData st1).
  rewrite jsonpArray_push_empty_queue by exact Hq1.
  rewrite require_unfold, Ei, Hm, Hv. repeat split; assumption.
Qed.

Lemma repeated_delivery_returns_cached_witness :
  exists st2, jsonpArray_push 1 delivery5 st_delivered5 = Ret (VObj 0) st2 /\
    factory_calls st2 = factory_calls st_delivered5 /\
    installedModules st2 = installedModules st_delivered5.
Proof.
  apply (repeated_delivery_returns_cached 1 0 delivery5 st_load5 st_delivered5 (VObj 0)).
  - reflexivity.
  - vm_compute. reflexivity.
Defined.
